(** * Android icon resizer ([devscripts/icon_resizer.py])

    A shallow embedding of the [AndroidIconResizer] class and of the
    pieces of the Python 2.7 runtime it relies on: binary64 floats,
    [re.sub] for the one pattern used, [posixpath], [os.makedirs] and the
    three PIL calls [Image.open], [Image.resize] and [Image.save]. *)

From Stdlib Require Import ZArith QArith Qround Lia Bool Ascii String SpecFloat.
From stdpp Require Import gmap strings.

Local Open Scope Z_scope.

(** ** Python runtime: exceptions *)

Module Py.

Inductive exn : Set :=
| OSError
| IOError
| OverflowError
| ZeroDivisionError
| ValueError.

(** A pure computation either returns or raises. *)
Inductive result (A : Type) : Type :=
| Ok (a : A)
| Raise (e : exn).
Arguments Ok {A} a.
Arguments Raise {A} e.

Definition bind {A B} (r : result A) (k : A -> result B) : result B :=
  match r with
  | Ok a => k a
  | Raise e => Raise e
  end.

Declare Scope py_scope.
Delimit Scope py_scope with py.
Notation "'let*' x := c 'in' k" := (bind c (fun x => k))
  (at level 10, x name, c at level 100, k at level 200) : py_scope.

(** ** Python runtime: [float] is IEEE 754 binary64 *)

Definition prec : Z := 53.
Definition emax : Z := 1024.

Abbreviation float := spec_float.

(** [float(n)] for an [int] or [long]: the nearest double, ties to even;
    [OverflowError] when that is not finite. *)
Definition float_of_int (n : Z) : result float :=
  match binary_normalize prec emax n 0 false with
  | S754_infinity _ => Raise OverflowError
  | f => Ok f
  end.

Definition is_zero (x : float) : bool :=
  match x with
  | S754_zero _ => true
  | _ => false
  end.

(** [x / y] on floats: division by zero raises, everything else is the
    IEEE quotient. *)
Definition float_div (x y : float) : result float :=
  if is_zero y then Raise ZeroDivisionError else Ok (SFdiv prec emax x y).

(** [x * y] on floats never raises. *)
Definition float_mul (x y : float) : float := SFmul prec emax x y.

(** [n / y] and [n * y] with an integer left operand: the integer is
    coerced first. *)
Definition int_div_float (n : Z) (y : float) : result float :=
  (let* x := float_of_int n in float_div x y)%py.

Definition int_mul_float (n : Z) (y : float) : result float :=
  (let* x := float_of_int n in Ok (float_mul x y))%py.

(** [int(x)]: truncation toward zero. *)
Definition int_of_float (x : float) : result Z :=
  match x with
  | S754_nan => Raise ValueError
  | S754_infinity _ => Raise OverflowError
  | S754_zero _ => Ok 0
  | S754_finite s m e => Ok (cond_Zopp s (Z.shiftl (Z.pos m) e))
  end.

(** ** Python runtime: [str] and [re]

    A Python 2 [str] is a string of bytes, which is what [string] is. *)

Local Open Scope string_scope.

(** The character class [[0-9]]. *)
Definition is_digit (c : ascii) : bool :=
  let n := nat_of_ascii c in (48 <=? n)%nat && (n <=? 57)%nat.

(** [digits_then_x s] matches [[0-9]*x] at the head of [s] and returns
    what follows the match.  The class and the letter are disjoint, so the
    greedy repetition never has to give a digit back. *)
Fixpoint digits_then_x (s : string) : option string :=
  match s with
  | String c s' =>
    if is_digit c then digits_then_x s'
    else if Ascii.eqb c "x" then Some s' else None
  | EmptyString => None
  end.

(** [match_density s] matches the pattern [@[0-9]+x] at the head of [s]. *)
Definition match_density (s : string) : option string :=
  match s with
  | String c (String d r) =>
    if Ascii.eqb c "@" && is_digit d then digits_then_x r else None
  | _ => None
  end.

(** [re.sub("@[0-9]+x", "", s)]: scan from the left; where the pattern
    matches, drop the match and go on behind it, otherwise keep the
    character and go on with the next one.  The inner loop is
    [digits_then_x] written in place, so that the recursion stays
    structural ([re_sub_density_eq] below gives the readable equation). *)
Fixpoint re_sub_density (s : string) : string :=
  match s with
  | EmptyString => EmptyString
  | String c s' =>
    let keep := String c (re_sub_density s') in
    match s' with
    | String d r =>
      if Ascii.eqb c "@" && is_digit d then
        (fix after_digit (t : string) : string :=
           match t with
           | String e t' =>
             if is_digit e then after_digit t'
             else if Ascii.eqb e "x" then re_sub_density t' else keep
           | EmptyString => keep
           end) r
      else keep
    | EmptyString => keep
    end
  end.

(** [s.replace(old, new)] for one-character [old] and [new]. *)
Fixpoint str_replace (old new : ascii) (s : string) : string :=
  match s with
  | EmptyString => EmptyString
  | String c s' =>
    String (if Ascii.eqb c old then new else c) (str_replace old new s')
  end.

(** *** Predicates on names, used to state what the normaliser does *)

(** The pattern matches somewhere in [s]. *)
Fixpoint has_match (s : string) : bool :=
  match s with
  | EmptyString => false
  | String _ s' =>
    match match_density s with Some _ => true | None => false end || has_match s'
  end.

Fixpoint skip_digits (s : string) : string :=
  match s with
  | String c s' => if is_digit c then skip_digits s' else s
  | EmptyString => EmptyString
  end.

Definition head_is_at (s : string) : bool :=
  match s with
  | String c _ => Ascii.eqb c "@"
  | EmptyString => false
  end.

(** [s] begins with an at sign, digits or none, and another at sign. *)
Definition at_run_at (s : string) : bool :=
  match s with
  | String c s' => Ascii.eqb c "@" && head_is_at (skip_digits s')
  | EmptyString => false
  end.

(** Somewhere in [s] two at signs have nothing but digits between them. *)
Fixpoint at_chain (s : string) : bool :=
  match s with
  | EmptyString => false
  | String _ s' => at_run_at s || at_chain s'
  end.

(** Every character of [ds] is a digit. *)
Definition all_digits (ds : string) : Prop :=
  forall c, In c (list_ascii_of_string ds) -> is_digit c = true.

(** What [replace('-', '_')] does to one character. *)
Definition hyphen_to_underscore (c : ascii) : ascii :=
  if Ascii.eqb c "-" then "_"%char else c.

(** The substitution as the specification words it: the first match goes
    and nothing else. *)
Fixpoint remove_first_density (s : string) : string :=
  match s with
  | EmptyString => EmptyString
  | String c s' =>
    match match_density s with
    | Some rest => rest
    | None => String c (remove_first_density s')
    end
  end.

(** ** Python runtime: [posixpath] *)

Fixpoint has_slash (p : string) : bool :=
  match p with
  | EmptyString => false
  | String c p' => Ascii.eqb c "/" || has_slash p'
  end.

Definition startswith_slash (p : string) : bool :=
  match p with
  | String c _ => Ascii.eqb c "/"
  | EmptyString => false
  end.

Fixpoint endswith_slash (p : string) : bool :=
  match p with
  | EmptyString => false
  | String c EmptyString => Ascii.eqb c "/"
  | String _ p' => endswith_slash p'
  end.

(** One step of [os.path.join]. *)
Definition join2 (path b : string) : string :=
  if startswith_slash b then b
  else if String.eqb path "" || endswith_slash path then path ++ b
  else path ++ "/" ++ b.

(** [os.path.join(a, *p)]. *)
Definition join (a : string) (p : list string) : string :=
  fold_left join2 p a.

(** [basename(p)] is [p[p.rfind('/')+1:]]. *)
Fixpoint basename (p : string) : string :=
  match p with
  | EmptyString => EmptyString
  | String c p' =>
    if has_slash p' then basename p'
    else if Ascii.eqb c "/" then p' else p
  end.

(** [p[:p.rfind('/')+1]] *)
Fixpoint head_part (p : string) : string :=
  match p with
  | EmptyString => EmptyString
  | String c p' => if has_slash p then String c (head_part p') else EmptyString
  end.

(** [s.rstrip('/')] *)
Fixpoint rstrip_slash (s : string) : string :=
  match s with
  | EmptyString => EmptyString
  | String c s' =>
    match rstrip_slash s' with
    | EmptyString => if Ascii.eqb c "/" then EmptyString else String c EmptyString
    | t => String c t
    end
  end.

(** [dirname(p)]: the head, without its trailing slashes unless it
    consists of slashes only. *)
Definition dirname (p : string) : string :=
  let head := head_part p in
  match rstrip_slash head with
  | EmptyString => head
  | t => t
  end.

(** The directories [makedirs] has to create on the way to [p]: every
    non-empty prefix of [p] that ends before a slash. *)
Fixpoint ancestors (seen p : string) : list string :=
  match p with
  | EmptyString => []
  | String c p' =>
    (if Ascii.eqb c "/" && negb (String.eqb seen "") then [seen] else [])
      ++ ancestors (seen ++ String c EmptyString) p'
  end.

End Py.

Import Py.

(** ** The file system and PIL

    What a file holds, as far as this program can tell: a picture of some
    size, or something [Image.open] cannot decode. *)

Module FS.

Inductive file : Set :=
| Picture (width height : Z)
| Garbage.

(** [refused] are the paths at which the operating system will not create
    a directory (permissions, a read-only volume, a file in the way). *)
Record fs : Type := mkFs {
  dirs : gset string;
  files : gmap string file;
  refused : gset string
}.

(** A command runs on the file system; what it did stays done when it
    raises. *)
Definition io (A : Type) : Type := fs -> result A * fs.

Definition ret {A} (a : A) : io A := fun s => (Ok a, s).

Definition iobind {A B} (c : io A) (k : A -> io B) : io B :=
  fun s =>
    match c s with
    | (Ok a, s') => k a s'
    | (Raise e, s') => (Raise e, s')
    end.

Definition lift {A} (r : result A) : io A := fun s => (r, s).

Declare Scope io_scope.
Delimit Scope io_scope with io.
Notation "'let*' x := c 'in' k" := (iobind c (fun x => k))
  (at level 10, x name, c at level 100, k at level 200) : io_scope.
Notation "c ;; k" := (iobind c (fun _ => k))
  (at level 100, k at level 200, right associativity) : io_scope.

(** [try: body except OSError: pass] *)
Definition try_except_OSError (body : io unit) : io unit :=
  fun s =>
    match body s with
    | (Raise OSError, s') => (Ok tt, s')
    | r => r
    end.

(** [for x in xs: body(x)] *)
Fixpoint for_each {A} (xs : list A) (body : A -> io unit) : io unit :=
  match xs with
  | [] => ret tt
  | x :: xs' => (body x ;; for_each xs' body)%io
  end.

(** [os.makedirs(path, 0755)]: [OSError] when the directory is there
    already or the system refuses; otherwise the directory and the missing
    ones above it exist afterwards. *)
Definition makedirs (path : string) : io unit :=
  fun s =>
    if decide (path ∈ dirs s) then (Raise OSError, s)
    else if decide (path ∈ refused s) then (Raise OSError, s)
    else (Ok tt,
          mkFs (dirs s ∪ list_to_set (ancestors "" path) ∪ {[ path ]})
               (files s) (refused s)).

(** A decoded image; only its size matters here. *)
Record image : Set := mkImage { size : Z * Z }.

(** [Image.open(path)] *)
Definition Image_open (path : string) : io image :=
  fun s =>
    match files s !! path with
    | Some (Picture w h) => (Ok (mkImage (w, h)), s)
    | _ => (Raise IOError, s)
    end.

(** [im.resize(size, PIL.Image.ANTIALIAS)]: a new image of that size.
    What PIL itself may refuse (no memory, a degenerate size) is outside
    this model. *)
Definition Image_resize (im : image) (sz : Z * Z) : image := mkImage sz.

(** [im.save(path, quality=100)]: the file is opened for writing, which
    needs its directory. *)
Definition Image_save (im : image) (path : string) : io unit :=
  fun s =>
    if decide (dirname path ∈ dirs s) then
      (Ok tt,
       mkFs (dirs s)
            (<[ path := Picture (fst (size im)) (snd (size im)) ]> (files s))
            (refused s))
    else (Raise IOError, s).

End FS.

Import FS.

Local Open Scope string_scope.

(** ** Module constants *)

Inductive resolution_type : Set :=
| ldpi | mdpi | hdpi | xhdpi | xxhdpi | xxxhdpi.

(** The key as the program spells it. *)
Definition name (r : resolution_type) : string :=
  match r with
  | ldpi => "ldpi"
  | mdpi => "mdpi"
  | hdpi => "hdpi"
  | xhdpi => "xhdpi"
  | xxhdpi => "xxhdpi"
  | xxxhdpi => "xxxhdpi"
  end.

Definition RESOLUTION_TYPES : list resolution_type :=
  [ldpi; mdpi; hdpi; xhdpi; xxhdpi; xxxhdpi].

Definition RESOLUTION_SIZES (r : resolution_type) : Z :=
  match r with
  | ldpi => 36
  | mdpi => 48
  | hdpi => 72
  | xhdpi => 96
  | xxhdpi => 144
  | xxxhdpi => 192
  end.

(** A float literal [m * 2^e]. *)
Definition float_lit (m e : Z) : float := binary_normalize prec emax m e false.

Definition RELATIVE_SIZES (r : resolution_type) : float :=
  match r with
  | ldpi => float_lit 3 (-2)     (* .75 *)
  | mdpi => float_lit 1 0        (* 1.0 *)
  | hdpi => float_lit 3 (-1)     (* 1.5 *)
  | xhdpi => float_lit 2 0       (* 2.0 *)
  | xxhdpi => float_lit 3 0      (* 3.0 *)
  | xxxhdpi => float_lit 4 0     (* 4.0 *)
  end.

(** The same factors as the specification lists them, as fractions. *)
Definition relative_scale (r : resolution_type) : Q :=
  match r with
  | ldpi => 3 # 4
  | mdpi => 1
  | hdpi => 3 # 2
  | xhdpi => 2
  | xxhdpi => 3
  | xxxhdpi => 4
  end.

(** The buckets whose factor is a whole number. *)
Definition whole_factor (r : resolution_type) : option Z :=
  match r with
  | mdpi => Some 1
  | xhdpi => Some 2
  | xxhdpi => Some 3
  | xxxhdpi => Some 4
  | ldpi | hdpi => None
  end.

Definition PLAYSTORE_SIZE : Z := 512.

(** ['res/drawable-%s' % resolution_type] *)
Definition DRAWABLE_FOLDER_PATH (r : resolution_type) : string :=
  "res/drawable-" ++ name r.

Definition PLAYSTORE_FOLDER_PATH : string := "res/playstore".

(** The directories of the layout, as [create_directories] and
    [create_playstore_directory] spell them. *)
Definition drawable_dir (output_folder : string) (r : resolution_type) : string :=
  join output_folder [DRAWABLE_FOLDER_PATH r].

Definition playstore_dir (output_folder : string) : string :=
  join output_folder [PLAYSTORE_FOLDER_PATH].

(** ** [AndroidIconResizer]

    The object has one field, [output_folder]; it is the first argument of
    every method below. *)

Definition create_directories (output_folder : string) : io unit :=
  for_each RESOLUTION_TYPES (fun resolution_type =>
    try_except_OSError
      (let path := join output_folder [DRAWABLE_FOLDER_PATH resolution_type] in
       makedirs path)).

Definition create_playstore_directory (output_folder : string) : io unit :=
  try_except_OSError
    (let path := join output_folder [PLAYSTORE_FOLDER_PATH] in
     makedirs path).

Definition normalize_file_name (file_name : string) : string :=
  str_replace "-" "_" (re_sub_density file_name).

Definition get_width_height (width height target_size : Z) : result (Z * Z) :=
  if width >? height then
    let new_width := target_size in
    (let* fwidth := float_of_int width in
     let* wpercent := int_div_float target_size fwidth in
     let* fheight := float_of_int height in
     let* new_height := int_of_float (float_mul fheight wpercent) in
     Ok (new_width, new_height))%py
  else
    let new_height := target_size in
    (let* fheight := float_of_int height in
     let* wpercent := int_div_float target_size fheight in
     let* fwidth := float_of_int width in
     let* new_width := int_of_float (float_mul fwidth wpercent) in
     Ok (new_width, new_height))%py.

(** The target size of one pass of the loop in [resize]. *)
Definition target_size_for (desired_size_mdpi : Z) (resolution_type : resolution_type)
  : result Z :=
  let target_size := RESOLUTION_SIZES resolution_type in
  if desired_size_mdpi >? 0 then
    (let* scaled := int_mul_float desired_size_mdpi (RELATIVE_SIZES resolution_type) in
     int_of_float scaled)%py
  else Ok target_size.

(** The body of the loop in [resize]. *)
Definition resize_one (output_folder file_name : string) (image : image)
    (width height desired_size_mdpi : Z) (resolution_type : resolution_type) : io unit :=
  (let image_to_resize := image in
   let* target_size := lift (target_size_for desired_size_mdpi resolution_type) in
   let* new_size := lift (get_width_height width height target_size) in
   let image_to_resize := Image_resize image_to_resize new_size in
   let path := join output_folder
                 [DRAWABLE_FOLDER_PATH resolution_type; normalize_file_name file_name] in
   Image_save image_to_resize path)%io.

(** The size the loop computes for one bucket, from the size of the
    source: the two computations of [resize_one] in a row. *)
Definition bucket_size (width height : Z) (r : resolution_type) : result (Z * Z) :=
  (let* target_size := target_size_for (if width >? height then width else height) r in
   get_width_height width height target_size)%py.

(** The file of one bucket, and the storefront file. *)
Definition drawable_file (output_folder file_path : string) (r : resolution_type) : string :=
  join output_folder [DRAWABLE_FOLDER_PATH r; normalize_file_name (basename file_path)].

Definition playstore_file (output_folder file_path : string) : string :=
  join output_folder [PLAYSTORE_FOLDER_PATH; normalize_file_name (basename file_path)].

(** [resize(file_path, desired_size_mdpi=0, with_playstore=False)].

    [keys] is the order in which the interpreter yields the keys of the
    dictionary [RESOLUTION_SIZES]; the language leaves it open.  The
    argument [desired_size_mdpi] is [None] when the command line has no
    [-s]. *)
Definition resize (keys : list resolution_type) (output_folder file_path : string)
    (desired_size_mdpi : option Z) (with_playstore : bool) : io unit :=
  (create_directories output_folder ;;
   let file_name := basename file_path in
   let* image := Image_open file_path in
   let width := fst (size image) in
   let height := snd (size image) in
   let desired_size_mdpi := if width >? height then width else height in
   for_each keys
     (resize_one output_folder file_name image width height desired_size_mdpi) ;;
   if with_playstore then
     (create_playstore_directory output_folder ;;
      let image_to_resize := image in
      let* new_size := lift (get_width_height width height PLAYSTORE_SIZE) in
      let image_to_resize := Image_resize image_to_resize new_size in
      let path := join output_folder
                    [PLAYSTORE_FOLDER_PATH; normalize_file_name file_name] in
      Image_save image_to_resize path)
   else ret tt)%io.

(** * Facts about binary64 arithmetic

    [SpecFloat] defines the operations bit by bit; the lemmas below say
    what they return on the normal numbers this program meets. *)

Local Open Scope Z_scope.

Lemma digits2_pos_size (p : positive) : digits2_pos p = Pos.size p.
Proof. induction p; simpl; congruence. Qed.

Lemma size_bounds (p : positive) :
  2 ^ (Z.pos (Pos.size p) - 1) <= Z.pos p < 2 ^ Z.pos (Pos.size p).
Proof.
  split.
  - pose proof (Pos.size_le p) as H.
    assert (Hs : (2 ^ Pos.size p <= p~0)%positive) by exact H.
    apply Pos2Z.pos_le_pos in Hs. rewrite Pos2Z.inj_pow in Hs.
    replace (Z.pos (Pos.size p)) with (Z.pos (Pos.size p) - 1 + 1) in Hs by lia.
    rewrite Z.pow_add_r in Hs by lia. lia.
  - pose proof (Pos.size_gt p) as H.
    apply Pos2Z.pos_lt_pos in H. rewrite Pos2Z.inj_pow in H. exact H.
Qed.

Lemma size_unique (p : positive) (d : Z) :
  2 ^ (d - 1) <= Z.pos p < 2 ^ d -> Z.pos (Pos.size p) = d.
Proof.
  intros [Hlo Hhi]. pose proof (size_bounds p) as [Hl Hh].
  assert (0 <= d).
  { destruct (Z_lt_le_dec d 0) as [Hn|]; [|lia].
    rewrite (Z.pow_neg_r 2 d) in Hhi by lia. lia. }
  destruct (Z_lt_le_dec (Z.pos (Pos.size p)) d) as [Hlt|Hge].
  - assert (2 ^ Z.pos (Pos.size p) <= 2 ^ (d - 1)) by (apply Z.pow_le_mono_r; lia). lia.
  - destruct (Z_lt_le_dec d (Z.pos (Pos.size p))) as [Hlt|Hge']; [|lia].
    assert (2 ^ d <= 2 ^ (Z.pos (Pos.size p) - 1)) by (apply Z.pow_le_mono_r; lia). lia.
Qed.

Lemma iter_pos_nat {A} (f : A -> A) (p : positive) (x : A) :
  SpecFloat.iter_pos f p x = Nat.iter (Pos.to_nat p) f x.
Proof.
  revert x. induction p as [p IH|p IH|]; intros x; cbn [SpecFloat.iter_pos].
  - rewrite !IH, Pos2Nat.inj_xI.
    replace (S (2 * Pos.to_nat p)) with (Pos.to_nat p + (Pos.to_nat p + 1))%nat by lia.
    rewrite !PeanoNat.Nat.iter_add. reflexivity.
  - rewrite !IH, Pos2Nat.inj_xO.
    replace (2 * Pos.to_nat p)%nat with (Pos.to_nat p + Pos.to_nat p)%nat by lia.
    rewrite PeanoNat.Nat.iter_add. reflexivity.
  - reflexivity.
Qed.

Lemma shr_1_m (mrs : shr_record) :
  0 <= shr_m mrs -> shr_m (shr_1 mrs) = shr_m mrs / 2.
Proof.
  destruct mrs as [m r s]. cbn [shr_m]. intros Hm.
  destruct m as [|[p|p|]|p]; cbn [shr_1 shr_m]; try lia; try reflexivity.
  - apply Z.div_unique with 1; lia.
  - apply Z.div_unique with 0; lia.
Qed.

Lemma shr_iter_m (k : nat) (mrs : shr_record) :
  0 <= shr_m mrs ->
  shr_m (Nat.iter k shr_1 mrs) = shr_m mrs / 2 ^ Z.of_nat k.
Proof.
  intros Hm. induction k as [|k IH].
  - simpl. rewrite Z.div_1_r. reflexivity.
  - rewrite PeanoNat.Nat.iter_succ, shr_1_m.
    + rewrite IH, Nat2Z.inj_succ, Z.pow_succ_r by lia.
      rewrite Z.div_div by lia. f_equal. lia.
    + rewrite IH. apply Z.div_pos; lia.
Qed.

(** Shifting out zeros only loses nothing. *)
Lemma shr_1_exact (m : Z) :
  0 <= m -> m mod 2 = 0 ->
  shr_1 (Build_shr_record m false false) = Build_shr_record (m / 2) false false.
Proof.
  intros Hm Hmod. destruct m as [|[p|p|]|p]; cbn [shr_1 orb]; try lia; try reflexivity.
  - exfalso. pose proof (Z.div_mod (Z.pos p~1) 2). lia.
  - f_equal. apply Z.div_unique with 0; lia.
  - discriminate.
Qed.

Lemma shr_iter_exact (k : nat) (m : Z) :
  0 <= m -> m mod 2 ^ Z.of_nat k = 0 ->
  Nat.iter k shr_1 (Build_shr_record m false false)
  = Build_shr_record (m / 2 ^ Z.of_nat k) false false.
Proof.
  revert m. induction k as [|k IH]; intros m Hm Hmod.
  - simpl. rewrite Z.div_1_r. reflexivity.
  - rewrite PeanoNat.Nat.iter_succ_r.
    rewrite Nat2Z.inj_succ, Z.pow_succ_r in Hmod by lia.
    assert (H2 : m mod 2 = 0).
    { apply Z.mod_divide in Hmod; [|lia]. apply Z.mod_divide; [lia|].
      destruct Hmod as [q Hq]. exists (q * 2 ^ Z.of_nat k). lia. }
    rewrite shr_1_exact by assumption.
    rewrite IH.
    + rewrite Nat2Z.inj_succ, Z.pow_succ_r by lia.
      rewrite Z.div_div by lia. reflexivity.
    + apply Z.div_pos; lia.
    + apply Z.mod_divide in Hmod; [|lia]. apply Z.mod_divide; [lia|].
      destruct Hmod as [q Hq]. exists q. subst m.
      replace (q * (2 * 2 ^ Z.of_nat k)) with (q * 2 ^ Z.of_nat k * 2) by lia.
      rewrite Z.div_mul by lia. reflexivity.
Qed.

Lemma shr_spec (mrs : shr_record) (e n : Z) :
  0 <= shr_m mrs -> 0 <= n ->
  shr_m (fst (shr mrs e n)) = shr_m mrs / 2 ^ n /\ snd (shr mrs e n) = e + n.
Proof.
  intros Hm Hn. destruct n as [|p|p]; simpl; try lia.
  - rewrite Z.div_1_r. split; [reflexivity|lia].
  - rewrite iter_pos_nat, shr_iter_m by assumption.
    rewrite positive_nat_Z. split; reflexivity.
Qed.

Lemma shr_exact (m e n : Z) :
  0 <= m -> 0 <= n -> m mod 2 ^ n = 0 ->
  shr (Build_shr_record m false false) e n
  = (Build_shr_record (m / 2 ^ n) false false, e + n).
Proof.
  intros Hm Hn Hmod. destruct n as [|p|p]; simpl; try lia.
  - rewrite Z.div_1_r. f_equal. lia.
  - rewrite iter_pos_nat. rewrite <- (positive_nat_Z p) in Hmod.
    rewrite shr_iter_exact by assumption. rewrite positive_nat_Z. reflexivity.
Qed.

Lemma round_nearest_even_bounds (m : Z) (l : location) :
  m <= round_nearest_even m l <= m + 1.
Proof. destruct l as [|[ | | ]]; simpl; try destruct (Z.even m); lia. Qed.

Lemma shr_record_of_loc_m (m : Z) (l : location) : shr_m (shr_record_of_loc m l) = m.
Proof. destruct l as [|[ | | ]]; reflexivity. Qed.

Lemma Zdigits2_pos (p : positive) : Zdigits2 (Z.pos p) = Z.pos (Pos.size p).
Proof. simpl. rewrite digits2_pos_size. reflexivity. Qed.

Lemma fexp_normal (d e : Z) :
  -1074 <= d + e - 53 -> fexp prec emax (d + e) - e = d - 53.
Proof. unfold fexp, SpecFloat.emin, prec, emax. lia. Qed.

Lemma div_pow2_bounds (m n : Z) :
  0 <= n -> 2 ^ (n + 52) <= m < 2 ^ (n + 53) -> 2 ^ 52 <= m / 2 ^ n < 2 ^ 53.
Proof.
  intros Hn [Hlo Hhi]. rewrite Z.pow_add_r in Hlo, Hhi by lia.
  assert (0 < 2 ^ n) by (apply Z.pow_pos_nonneg; lia).
  split.
  - apply Z.div_le_lower_bound; lia.
  - apply Z.div_lt_upper_bound; lia.
Qed.

Lemma binary_round_aux_spec (m : positive) (e : Z) (l : location) :
  let n := Z.pos (Pos.size m) - 53 in
  0 <= n -> -1074 <= e + n -> e + n + 1 <= 971 ->
  exists mf ef,
    binary_round_aux prec emax false (Z.pos m) e l = S754_finite false mf ef /\
    Z.pos (Pos.size mf) = 53 /\
    e + n <= ef <= e + n + 1 /\
    Z.pos m / 2 ^ n * 2 ^ n <= Z.pos mf * 2 ^ (ef - e) <= (Z.pos m / 2 ^ n + 1) * 2 ^ n /\
    (l = loc_Exact -> Z.pos m mod 2 ^ n = 0 -> Z.pos mf = Z.pos m / 2 ^ n /\ ef = e + n).
Proof.
  intros n Hn Hlo Hhi.
  pose proof (size_bounds m) as Hsz.
  replace (Z.pos (Pos.size m) - 1) with (n + 52) in Hsz by (unfold n; lia).
  replace (Z.pos (Pos.size m)) with (n + 53) in Hsz by (unfold n; lia).
  pose proof (div_pow2_bounds _ _ Hn Hsz) as Hm1.
  assert (Hpn : 0 < 2 ^ n) by (apply Z.pow_pos_nonneg; lia).
  unfold binary_round_aux, shr_fexp.
  rewrite Zdigits2_pos, fexp_normal by (fold n; lia). fold n.
  pose proof (shr_spec (shr_record_of_loc (Z.pos m) l) e n) as Hshr.
  rewrite shr_record_of_loc_m in Hshr. specialize (Hshr ltac:(lia) Hn).
  destruct (shr (shr_record_of_loc (Z.pos m) l) e n) as [mrs' e'] eqn:Eshr.
  cbn [fst snd] in Hshr. destruct Hshr as [Hm' He']. subst e'.
  set (m1 := Z.pos m / 2 ^ n) in *.
  pose proof (round_nearest_even_bounds (shr_m mrs') (loc_of_shr_record mrs')) as Hrne.
  set (m2 := round_nearest_even (shr_m mrs') (loc_of_shr_record mrs')) in *.
  rewrite Hm' in Hrne.
  assert (Hexact : l = loc_Exact -> Z.pos m mod 2 ^ n = 0 -> m2 = m1).
  { intros -> Hmod. cbn [shr_record_of_loc] in Eshr.
    rewrite shr_exact in Eshr by (assumption || lia).
    injection Eshr as <-. reflexivity. }
  destruct (Z_lt_le_dec m2 (2 ^ 53)) as [Hlt|Hge].
  - (* no carry *)
    destruct m2 as [|p2|p2] eqn:E2; try lia.
    assert (Hd : Z.pos (Pos.size p2) = 53) by (apply size_unique; lia).
    rewrite Zdigits2_pos, Hd.
    replace (fexp prec emax (53 + (e + n)) - (e + n)) with 0
      by (unfold fexp, SpecFloat.emin, prec, emax; lia).
    cbn [shr shr_record_of_loc shr_m].
    replace (e + n <=? emax - prec) with true
      by (symmetry; apply Z.leb_le; unfold emax, prec; lia).
    exists p2, (e + n). split; [reflexivity|]. split; [assumption|].
    split; [lia|]. replace (e + n - e) with n by lia.
    split; [nia|]. intros Hl Hmod. specialize (Hexact Hl Hmod). lia.
  - (* the mantissa rounded up to the next binade *)
    assert (E2 : m2 = 2 ^ 53) by lia.
    rewrite E2. change (Zdigits2 (2 ^ 53)) with 54.
    replace (fexp prec emax (54 + (e + n)) - (e + n)) with 1
      by (unfold fexp, SpecFloat.emin, prec, emax; lia).
    cbn [shr_record_of_loc].
    rewrite shr_exact by (reflexivity || lia).
    cbn [shr_m]. change (2 ^ 53 / 2 ^ 1) with (Z.pos (2 ^ 52)).
    replace (e + n + 1 <=? emax - prec) with true
      by (symmetry; apply Z.leb_le; unfold emax, prec; lia).
    exists (2 ^ 52)%positive, (e + n + 1). split; [reflexivity|].
    split; [reflexivity|]. split; [lia|].
    replace (e + n + 1 - e) with (n + 1) by lia.
    rewrite Z.pow_add_r by lia. change (2 ^ 1) with 2.
    change (Z.pos (2 ^ 52)) with (2 ^ 52).
    split; [nia|]. intros Hl Hmod. specialize (Hexact Hl Hmod). lia.
Qed.

(** What [binary_round_aux] returns on a mantissa of at least 53 bits in
    the normal range: a 53-bit mantissa, at most one unit in the last
    place above the exact value. *)
Lemma binary_round_aux_upper (m : positive) (e : Z) (l : location) :
  let n := Z.pos (Pos.size m) - 53 in
  0 <= n -> -1074 <= e + n -> e + n + 1 <= 971 ->
  exists mf a,
    binary_round_aux prec emax false (Z.pos m) e l = S754_finite false mf (e + a) /\
    Z.pos (Pos.size mf) = 53 /\
    n <= a <= n + 1 /\
    2 ^ 52 * (Z.pos mf * 2 ^ a) <= Z.pos m * (2 ^ 52 + 1).
Proof.
  intros n Hn Hlo Hhi.
  destruct (binary_round_aux_spec m e l Hn Hlo Hhi) as (mf & ef & Heq & Hsz & Hef & Hval & _).
  fold n in Hef, Hval.
  exists mf, (ef - e). replace (e + (ef - e)) with ef by lia.
  split; [assumption|]. split; [assumption|]. split; [lia|].
  pose proof (size_bounds m) as Hm.
  replace (Z.pos (Pos.size m) - 1) with (n + 52) in Hm by (unfold n; lia).
  rewrite Z.pow_add_r in Hm by lia.
  assert (0 < 2 ^ n) by (apply Z.pow_pos_nonneg; lia).
  assert (Z.pos m / 2 ^ n * 2 ^ n <= Z.pos m).
  { rewrite Z.mul_comm. apply Z.mul_div_le. lia. }
  nia.
Qed.

Lemma size_product (x y : positive) :
  Z.pos (Pos.size x) = 53 -> Z.pos (Pos.size y) = 53 ->
  52 <= Z.pos (Pos.size (x * y)) - 53 <= 53.
Proof.
  intros Hx Hy. pose proof (size_bounds x) as Bx. pose proof (size_bounds y) as By.
  rewrite Hx in Bx. rewrite Hy in By.
  change (53 - 1) with 52 in *.
  assert (2 ^ 104 <= Z.pos (x * y) < 2 ^ 106).
  { rewrite Pos2Z.inj_mul. change (2 ^ 104) with (2 ^ 52 * 2 ^ 52).
    change (2 ^ 106) with (2 ^ 53 * 2 ^ 53). nia. }
  destruct (Z_lt_le_dec (Z.pos (x * y)) (2 ^ 105)).
  - rewrite (size_unique (x * y) 105); lia.
  - rewrite (size_unique (x * y) 106); lia.
Qed.

Lemma SFmul_upper (mx my : positive) (ex ey : Z) :
  Z.pos (Pos.size mx) = 53 -> Z.pos (Pos.size my) = 53 ->
  -1074 <= ex + ey + 52 -> ex + ey + 54 <= 971 ->
  exists mr b,
    float_mul (S754_finite false mx ex) (S754_finite false my ey)
    = S754_finite false mr (ex + ey + b) /\
    Z.pos (Pos.size mr) = 53 /\
    52 <= b <= 54 /\
    2 ^ 52 * (Z.pos mr * 2 ^ b) <= Z.pos mx * Z.pos my * (2 ^ 52 + 1).
Proof.
  intros Hx Hy Hlo Hhi. pose proof (size_product mx my Hx Hy) as Hn.
  unfold float_mul, SFmul. cbn [xorb].
  destruct (binary_round_aux_upper (mx * my) (ex + ey) loc_Exact)
    as (mr & b & Heq & Hsz & Hb & Hval); try lia.
  exists mr, b. rewrite Pos2Z.inj_mul in Hval.
  repeat split; try assumption; lia.
Qed.

Lemma SFdiv_upper (mx my : positive) (ex ey : Z) :
  Z.pos (Pos.size mx) = 53 -> Z.pos (Pos.size my) = 53 ->
  -1074 <= ex - ey - 53 -> ex - ey - 53 + 2 <= 971 ->
  exists mq a q,
    SFdiv prec emax (S754_finite false mx ex) (S754_finite false my ey)
    = S754_finite false mq (ex - ey - 53 + a) /\
    Z.pos (Pos.size mq) = 53 /\
    0 <= a <= 2 /\
    0 < q /\
    q * Z.pos my <= Z.pos mx * 2 ^ 53 /\
    2 ^ 52 * (Z.pos mq * 2 ^ a) <= q * (2 ^ 52 + 1).
Proof.
  intros Hx Hy Hlo Hhi.
  pose proof (size_bounds mx) as Bx. pose proof (size_bounds my) as By.
  rewrite Hx in Bx. rewrite Hy in By. change (53 - 1) with 52 in *.
  unfold SFdiv, SFdiv_core_binary. cbn [xorb].
  rewrite !Zdigits2_pos, Hx, Hy.
  replace (Z.min (fexp prec emax (53 + ex - (53 + ey))) (ex - ey)) with (ex - ey - 53)
    by (unfold fexp, SpecFloat.emin, prec, emax; lia).
  replace (ex - ey - (ex - ey - 53)) with 53 by lia.
  rewrite Z.shiftl_mul_pow2 by lia.
  pose proof (Z_div_mod (Z.pos mx * 2 ^ 53) (Z.pos my) ltac:(lia)) as Hdm.
  destruct (Z.div_eucl (Z.pos mx * 2 ^ 53) (Z.pos my)) as [q r].
  destruct Hdm as [Hdm Hr].
  assert (Hq : 2 ^ 52 <= q < 2 ^ 54).
  { change (2 ^ 54) with (2 * 2 ^ 53). change (2 ^ 53) with (2 * 2 ^ 52) in *. nia. }
  destruct q as [|pq|pq]; try lia.
  assert (Hn : 0 <= Z.pos (Pos.size pq) - 53 <= 1).
  { destruct (Z_lt_le_dec (Z.pos pq) (2 ^ 53)).
    - rewrite (size_unique pq 53); lia.
    - rewrite (size_unique pq 54); lia. }
  destruct (binary_round_aux_upper pq (ex - ey - 53) (new_location (Z.pos my) r))
    as (mq & a & Heq & Hsz & Ha & Hval); try lia.
  exists mq, a, (Z.pos pq).
  repeat split; try assumption; try lia.
Qed.

Lemma iter_xO_pow2 (p k : positive) :
  Z.pos (Pos.iter xO p k) = Z.pos p * 2 ^ Z.pos k.
Proof.
  induction k as [|k IH] using Pos.peano_ind.
  - simpl. lia.
  - rewrite Pos.iter_succ, Pos2Z.inj_xO, IH, Pos2Z.inj_succ, Z.pow_succ_r by lia. lia.
Qed.

(** [float(n)] is exact below [2^53]: the mantissa is [n] shifted to 53
    bits. *)
Lemma float_of_int_exact (n : Z) :
  0 < n < 2 ^ 53 ->
  exists m d,
    float_of_int n = Ok (S754_finite false m (d - 53)) /\
    Z.pos (Pos.size m) = 53 /\
    1 <= d <= 53 /\
    2 ^ (d - 1) <= n < 2 ^ d /\
    Z.pos m = n * 2 ^ (53 - d).
Proof.
  intros Hn. destruct n as [|p|p]; try lia.
  pose proof (size_bounds p) as Bp.
  set (d := Z.pos (Pos.size p)) in *.
  assert (Hd : 1 <= d <= 53).
  { split; [unfold d; lia|].
    destruct (Z_lt_le_dec 53 d) as [Hgt|]; [|lia].
    assert (2 ^ 53 <= 2 ^ (d - 1)) by (apply Z.pow_le_mono_r; lia). lia. }
  assert (Hm : exists m, shl_align p 0 (d - 53) = (m, d - 53) /\ Z.pos m = Z.pos p * 2 ^ (53 - d)).
  { unfold shl_align. destruct (d - 53 - 0) as [|k|k] eqn:Ek; try lia.
    - exists p. replace (d - 53) with 0 by lia. replace (53 - d) with 0 by lia.
      split; [reflexivity|]. lia.
    - exists (Pos.iter xO p k). split; [reflexivity|].
      rewrite iter_xO_pow2. do 2 f_equal. lia. }
  destruct Hm as (m & Halign & Hm).
  assert (Hsz : Z.pos (Pos.size m) = 53).
  { apply size_unique. rewrite Hm.
    assert (E1 : 2 ^ (53 - 1) = 2 ^ (d - 1) * 2 ^ (53 - d))
      by (rewrite <- Z.pow_add_r by lia; f_equal; lia).
    assert (E2 : 2 ^ 53 = 2 ^ d * 2 ^ (53 - d))
      by (rewrite <- Z.pow_add_r by lia; f_equal; lia).
    rewrite E1, E2.
    assert (0 < 2 ^ (53 - d)) by (apply Z.pow_pos_nonneg; lia). nia. }
  destruct (binary_round_aux_spec m (d - 53) loc_Exact)
    as (mf & ef & Heq & _ & _ & _ & Hex); try lia.
  destruct Hex as [Hmf Hef]; [reflexivity| |].
  { rewrite Hsz. change (2 ^ (53 - 53)) with 1. apply Z.mod_1_r. }
  rewrite Hsz in Hmf, Hef. change (2 ^ (53 - 53)) with 1 in Hmf.
  rewrite Z.div_1_r in Hmf. injection Hmf as ->.
  replace ef with (d - 53) in Heq by lia.
  exists m, d. split; [|repeat split; try assumption; lia].
  unfold float_of_int, binary_normalize, binary_round.
  rewrite digits2_pos_size. fold d.
  replace (fexp prec emax (d + 0)) with (d - 53)
    by (unfold fexp, SpecFloat.emin, prec, emax; lia).
  rewrite Halign, Heq. reflexivity.
Qed.

(** Moving factors of two between mantissa and exponent. *)
Lemma shiftl_mul_pow2_cancel (a u v : Z) :
  0 <= a -> 0 <= u -> Z.shiftl (a * 2 ^ u) (v - u) = Z.shiftl a v.
Proof.
  intros Ha Hu.
  assert (Hpu : 0 < 2 ^ u) by (apply Z.pow_pos_nonneg; lia).
  destruct (Z_lt_le_dec v 0) as [Hv|Hv].
  - rewrite (Z.shiftl_div_pow2 a v), (Z.shiftl_div_pow2 _ (v - u)) by lia.
    replace (- (v - u)) with (- v + u) by lia.
    rewrite Z.pow_add_r by lia. rewrite Z.div_mul_cancel_r by lia. reflexivity.
  - rewrite (Z.shiftl_mul_pow2 a v) by lia.
    destruct (Z_lt_le_dec (v - u) 0) as [Hvu|Hvu].
    + rewrite Z.shiftl_div_pow2 by lia.
      replace u with (v + - (v - u)) at 1 by lia.
      rewrite Z.pow_add_r by lia. rewrite Z.mul_assoc.
      assert (0 < 2 ^ (- (v - u))) by (apply Z.pow_pos_nonneg; lia).
      rewrite Z.div_mul by lia. reflexivity.
    + rewrite Z.shiftl_mul_pow2 by lia. rewrite <- Z.mul_assoc, <- Z.pow_add_r by lia.
      do 2 f_equal. lia.
Qed.

(** A product that fits is exact, and so is its integer part. *)
Lemma int_of_float_mul_exact (mx my : positive) (ex ey : Z) :
  Z.pos (Pos.size mx) = 53 -> Z.pos (Pos.size my) = 53 ->
  -1074 <= ex + ey + 52 -> ex + ey + 54 <= 971 ->
  (Z.pos mx * Z.pos my) mod 2 ^ 53 = 0 ->
  int_of_float (float_mul (S754_finite false mx ex) (S754_finite false my ey))
  = Ok (Z.shiftl (Z.pos mx * Z.pos my) (ex + ey)).
Proof.
  intros Hx Hy Hlo Hhi Hmod. pose proof (size_product mx my Hx Hy) as Hn.
  unfold float_mul, SFmul. cbn [xorb].
  set (n := Z.pos (Pos.size (mx * my)) - 53) in *.
  destruct (binary_round_aux_spec (mx * my) (ex + ey) loc_Exact)
    as (mf & ef & Heq & _ & _ & _ & Hex); try (fold n; lia).
  fold n in Hex. rewrite Pos2Z.inj_mul in Hex.
  assert (Hdiv : (Z.pos mx * Z.pos my) mod 2 ^ n = 0).
  { apply Z.mod_divide in Hmod; [|lia]. destruct Hmod as [k Hk].
    apply Z.mod_divide; [apply Z.pow_nonzero; lia|].
    exists (k * 2 ^ (53 - n)). rewrite Hk, <- Z.mul_assoc, <- Z.pow_add_r by lia.
    do 2 f_equal. lia. }
  destruct Hex as [Hmf Hef]; [reflexivity|assumption|].
  rewrite Heq. cbn [int_of_float cond_Zopp]. f_equal.
  rewrite Hmf, Hef.
  apply Z.mod_divide in Hdiv; [|apply Z.pow_nonzero; lia]. destruct Hdiv as [k Hk].
  rewrite Hk. rewrite Z.div_mul by (apply Z.pow_nonzero; lia).
  assert (0 < 2 ^ n) by (apply Z.pow_pos_nonneg; lia).
  symmetry. replace (ex + ey) with (ex + ey + n - n) at 1 by lia.
  apply shiftl_mul_pow2_cancel; nia.
Qed.

(** The arithmetic behind [scaled_side_le]: two roundings, each at most
    one part in [2^52] upwards, cannot lift [s * t / l] with [s <= l] to
    [t + 1]. *)
Lemma two_roundings_below_succ (s t l mr mq q P T L A B X : Z) :
  0 < s <= l -> 0 < t < 2 ^ 50 ->
  0 < mr -> 0 < mq -> 0 < q ->
  0 < P -> 0 < T -> 0 < L -> 0 < A -> 0 < B -> 0 < X ->
  q * (l * L) <= t * T * 2 ^ 53 ->
  2 ^ 52 * (mq * A) <= q * (2 ^ 52 + 1) ->
  2 ^ 52 * (mr * B) <= s * P * mq * (2 ^ 52 + 1) ->
  X * A * B * L = P * T * 2 ^ 53 ->
  mr < (t + 1) * X.
Proof.
  intros Hs Ht Hmr Hmq Hq HP HT HL HA HB HX H2 H3 H4 H5.
  set (c := 2 ^ 52 + 1) in *.
  assert (Hc : 0 < c) by (unfold c; lia).
  (* clear the quotient and the intermediate mantissa *)
  assert (S1 : 2 ^ 52 * (2 ^ 52 * (mr * B)) * (A * (l * L))
               <= c * c * (s * P) * (t * T * 2 ^ 53)).
  { transitivity (2 ^ 52 * (s * P * mq * c) * (A * (l * L))).
    - apply Z.mul_le_mono_nonneg_r; [nia|]. apply Z.mul_le_mono_nonneg_l; lia.
    - replace (2 ^ 52 * (s * P * mq * c) * (A * (l * L)))
        with (s * P * c * (2 ^ 52 * (mq * A)) * (l * L)) by ring.
      transitivity (s * P * c * (q * c) * (l * L)).
      + apply Z.mul_le_mono_nonneg_r; [nia|]. apply Z.mul_le_mono_nonneg_l; nia.
      + replace (s * P * c * (q * c) * (l * L))
          with (c * c * (s * P) * (q * (l * L))) by ring.
        apply Z.mul_le_mono_nonneg_l; nia. }
  (* both sides carry the factor [A * B * L] *)
  assert (S2 : 2 ^ 104 * mr * l * (A * B * L) <= c * c * s * t * X * (A * B * L)).
  { replace (2 ^ 104 * mr * l * (A * B * L))
      with (2 ^ 52 * (2 ^ 52 * (mr * B)) * (A * (l * L)))
      by (change (2 ^ 104) with (2 ^ 52 * 2 ^ 52); ring).
    replace (c * c * s * t * X * (A * B * L))
      with (c * c * (s * P) * (t * T * 2 ^ 53))
      by (replace (c * c * s * t * X * (A * B * L))
            with (c * c * s * t * (X * A * B * L)) by ring; rewrite H5; ring).
    exact S1. }
  apply Z.mul_le_mono_pos_r in S2; [|nia].
  assert (S3 : 2 ^ 104 * mr * l <= c * c * t * X * l).
  { transitivity (c * c * s * t * X); [exact S2|].
    replace (c * c * s * t * X) with (c * c * t * X * s) by ring.
    apply Z.mul_le_mono_nonneg_l; nia. }
  apply Z.mul_le_mono_pos_r in S3; [|lia].
  assert (S4 : c * c * t < 2 ^ 104 * (t + 1)) by (unfold c; lia).
  assert (S5 : 2 ^ 104 * mr < 2 ^ 104 * ((t + 1) * X)) by nia.
  apply Z.mul_lt_mono_pos_l in S5; lia.
Qed.

(** The side that is not pinned to the target never exceeds it. *)
Lemma scaled_side_le (s l t : Z) :
  0 < s <= l -> l < 2 ^ 53 -> 0 < t < 2 ^ 50 ->
  exists fl wp fs v,
    float_of_int l = Ok fl /\
    int_div_float t fl = Ok wp /\
    float_of_int s = Ok fs /\
    int_of_float (float_mul fs wp) = Ok v /\
    0 <= v <= t.
Proof.
  intros Hs Hl Ht.
  destruct (float_of_int_exact l) as (Ml & dl & El & Szl & Hdl & Bl & Vl); [lia|].
  destruct (float_of_int_exact t) as (Mt & dt & Et & Szt & Hdt & Bt & Vt); [lia|].
  destruct (float_of_int_exact s) as (Ms & ds & Es & Szs & Hds & Bs & Vs); [lia|].
  assert (Hdsl : ds <= dl).
  { destruct (Z_lt_le_dec dl ds) as [Hgt|]; [|lia].
    assert (2 ^ dl <= 2 ^ (ds - 1)) by (apply Z.pow_le_mono_r; lia). lia. }
  assert (Hdt50 : dt <= 50).
  { destruct (Z_lt_le_dec 50 dt) as [Hgt|]; [|lia].
    assert (2 ^ 50 <= 2 ^ (dt - 1)) by (apply Z.pow_le_mono_r; lia). lia. }
  destruct (SFdiv_upper Mt Ml (dt - 53) (dl - 53))
    as (mq & a & q & Eq & Szq & Ha & Hq & Hq1 & Hq2); try assumption; try lia.
  destruct (SFmul_upper Ms mq (ds - 53) (dt - 53 - (dl - 53) - 53 + a))
    as (mr & b & Er & Szr & Hb & Hr); try assumption; try lia.
  set (er := ds - 53 + (dt - 53 - (dl - 53) - 53 + a) + b) in *.
  exists (S754_finite false Ml (dl - 53)), (S754_finite false mq (dt - 53 - (dl - 53) - 53 + a)),
    (S754_finite false Ms (ds - 53)), (Z.shiftl (Z.pos mr) er).
  split; [assumption|]. split.
  { unfold int_div_float. rewrite Et. cbn [bind]. unfold float_div. cbn [is_zero].
    rewrite Eq. reflexivity. }
  split; [assumption|]. split.
  { rewrite Er. reflexivity. }
  assert (Her : er <= 0) by (unfold er; lia).
  rewrite Z.shiftl_div_pow2 by assumption.
  assert (HX : 0 < 2 ^ (- er)) by (apply Z.pow_pos_nonneg; lia).
  split; [apply Z.div_pos; lia|].
  apply Z.lt_succ_r. apply Z.div_lt_upper_bound; [assumption|].
  rewrite Z.mul_comm.
  apply (two_roundings_below_succ s t l (Z.pos mr) (Z.pos mq) q
           (2 ^ (53 - ds)) (2 ^ (53 - dt)) (2 ^ (53 - dl)) (2 ^ a) (2 ^ b) (2 ^ (- er)));
    try lia; try (apply Z.pow_pos_nonneg; lia).
  rewrite <- !Z.pow_add_r by lia. f_equal. unfold er. lia.
Qed.

(** * Facts about the file-name normaliser *)

Local Open Scope string_scope.

Lemma after_digit_eq (keep r : string) :
  (fix after_digit (t : string) : string :=
     match t with
     | String e t' =>
       if is_digit e then after_digit t'
       else if Ascii.eqb e "x" then re_sub_density t' else keep
     | EmptyString => keep
     end) r
  = match digits_then_x r with
    | Some rest => re_sub_density rest
    | None => keep
    end.
Proof.
  induction r as [|e t IH]; [reflexivity|].
  cbn [digits_then_x]. destruct (is_digit e); [exact IH|].
  destruct (Ascii.eqb e "x"); reflexivity.
Qed.

Lemma re_sub_density_eq (s : string) :
  re_sub_density s =
  match s with
  | EmptyString => EmptyString
  | String c s' =>
    match match_density s with
    | Some rest => re_sub_density rest
    | None => String c (re_sub_density s')
    end
  end.
Proof.
  destruct s as [|c [|d r]]; [reflexivity|reflexivity|].
  cbn [match_density].
  destruct (Ascii.eqb c "@" && is_digit d) eqn:E.
  - rewrite <- after_digit_eq. cbn [re_sub_density]. rewrite E. reflexivity.
  - cbn [re_sub_density]. rewrite E. reflexivity.
Qed.

Lemma all_digits_cons (c : ascii) (ds : string) :
  all_digits (String c ds) <-> is_digit c = true /\ all_digits ds.
Proof.
  unfold all_digits. simpl. split.
  - intros H. split; [apply H; left; reflexivity|]. intros d Hd. apply H. right. exact Hd.
  - intros [Hc H] d [<-|Hd]; [exact Hc|apply H, Hd].
Qed.

Lemma digits_then_x_token (ds r : string) :
  all_digits ds -> digits_then_x (ds ++ String "x" r) = Some r.
Proof.
  induction ds as [|c ds IH]; intros Hds.
  - reflexivity.
  - apply all_digits_cons in Hds as [Hc Hds]. simpl. rewrite Hc. apply IH, Hds.
Qed.

Lemma match_density_token (ds r : string) :
  ds <> EmptyString -> all_digits ds ->
  match_density (String "@" (ds ++ String "x" r)) = Some r.
Proof.
  intros Hne Hds. destruct ds as [|d ds]; [congruence|].
  apply all_digits_cons in Hds as [Hd Hds].
  change (String d ds ++ String "x" r) with (String d (ds ++ String "x" r)).
  cbn [match_density]. rewrite Hd. apply digits_then_x_token, Hds.
Qed.

Lemma digits_then_x_app_some (p rest u : string) :
  digits_then_x p = Some rest -> digits_then_x (p ++ u) = Some (rest ++ u).
Proof.
  induction p as [|c p IH]; [discriminate|]. simpl.
  destruct (is_digit c); [exact IH|].
  destruct (Ascii.eqb c "x"); [|discriminate]. intros [= <-]. reflexivity.
Qed.

Lemma match_density_app_some (p rest u : string) :
  match_density p = Some rest -> match_density (p ++ u) = Some (rest ++ u).
Proof.
  destruct p as [|c [|d p]]; try discriminate.
  change (String c (String d p) ++ u) with (String c (String d (p ++ u))).
  cbn [match_density].
  destruct (Ascii.eqb c "@" && is_digit d); [|discriminate].
  apply digits_then_x_app_some.
Qed.

Lemma digits_then_x_app_at (p u : string) :
  digits_then_x p = None -> digits_then_x (p ++ String "@" u) = None.
Proof.
  induction p as [|c p IH]; [reflexivity|]. simpl.
  destruct (is_digit c); [exact IH|].
  destruct (Ascii.eqb c "x"); [discriminate|reflexivity].
Qed.

Lemma match_density_app_at (p u : string) :
  p <> EmptyString -> match_density p = None ->
  match_density (p ++ String "@" u) = None.
Proof.
  destruct p as [|c [|d p]]; [congruence| |].
  - intros _ _. change (String c "" ++ String "@" u) with (String c (String "@" u)).
    cbn [match_density]. rewrite andb_false_r. reflexivity.
  - intros _.
    change (String c (String d p) ++ String "@" u)
      with (String c (String d (p ++ String "@" u))).
    cbn [match_density].
    destruct (Ascii.eqb c "@" && is_digit d); [|reflexivity].
    apply digits_then_x_app_at.
Qed.

Lemma digits_then_x_shorter (s r : string) :
  digits_then_x s = Some r -> (String.length r < String.length s)%nat.
Proof.
  induction s as [|c s IH]; [discriminate|]. simpl.
  destruct (is_digit c).
  - intros H. apply IH in H. lia.
  - destruct (Ascii.eqb c "x"); [|discriminate]. intros [= <-]. lia.
Qed.

Lemma match_density_shorter (s r : string) :
  match_density s = Some r -> (String.length r < String.length s)%nat.
Proof.
  destruct s as [|c [|d s]]; try discriminate. cbn [match_density].
  destruct (Ascii.eqb c "@" && is_digit d); [|discriminate].
  intros H. apply digits_then_x_shorter in H. simpl. lia.
Qed.

(** Induction along the scan of [re.sub]. *)
Lemma scan_ind (P : string -> Prop) :
  P EmptyString ->
  (forall c s rest, match_density (String c s) = Some rest -> P rest -> P (String c s)) ->
  (forall c s, match_density (String c s) = None -> P s -> P (String c s)) ->
  forall s, P s.
Proof.
  intros Hnil Hhit Hmiss s.
  remember (String.length s) as n eqn:Hn.
  revert s Hn. induction n as [n IH] using lt_wf_ind. intros s Hn.
  destruct s as [|c s]; [exact Hnil|].
  destruct (match_density (String c s)) as [rest|] eqn:Hm.
  - apply (Hhit c s rest Hm). apply match_density_shorter in Hm.
    apply (IH (String.length rest)); [lia|reflexivity].
  - apply (Hmiss c s Hm). apply (IH (String.length s)); [simpl in Hn; lia|reflexivity].
Qed.

(** Every occurrence goes, not only the first one. *)
Lemma re_sub_density_app_token (p ds r : string) :
  ds <> EmptyString -> all_digits ds ->
  re_sub_density (p ++ String "@" (ds ++ String "x" r))
  = re_sub_density p ++ re_sub_density r.
Proof.
  intros Hne Hds. induction p as [|c p rest Hm IH|c p Hm IH] using scan_ind.
  - change ("" ++ String "@" (ds ++ String "x" r))
      with (String "@" (ds ++ String "x" r)).
    rewrite re_sub_density_eq.
    rewrite match_density_token by assumption. reflexivity.
  - rewrite (re_sub_density_eq (String c p)), Hm.
    rewrite <- IH.
    rewrite (re_sub_density_eq (String c p ++ _)).
    rewrite (match_density_app_some _ _ _ Hm). reflexivity.
  - rewrite (re_sub_density_eq (String c p)), Hm.
    rewrite (re_sub_density_eq (String c p ++ _)).
    rewrite match_density_app_at by (assumption || discriminate).
    change (String c p ++ String "@" (ds ++ String "x" r))
      with (String c (p ++ String "@" (ds ++ String "x" r))).
    cbv iota. rewrite IH. reflexivity.
Qed.

(** ** Hyphens *)

Lemma hyphen_is_digit (c : ascii) :
  is_digit (hyphen_to_underscore c) = is_digit c.
Proof.
  unfold hyphen_to_underscore. destruct (Ascii.eqb_spec c "-"); [subst|]; reflexivity.
Qed.

Lemma hyphen_eqb_x (c : ascii) :
  Ascii.eqb (hyphen_to_underscore c) "x" = Ascii.eqb c "x".
Proof.
  unfold hyphen_to_underscore. destruct (Ascii.eqb_spec c "-"); [subst|]; reflexivity.
Qed.

Lemma hyphen_eqb_at (c : ascii) :
  Ascii.eqb (hyphen_to_underscore c) "@" = Ascii.eqb c "@".
Proof.
  unfold hyphen_to_underscore. destruct (Ascii.eqb_spec c "-"); [subst|]; reflexivity.
Qed.

Lemma hyphen_idem (c : ascii) :
  hyphen_to_underscore (hyphen_to_underscore c) = hyphen_to_underscore c.
Proof.
  unfold hyphen_to_underscore. destruct (Ascii.eqb_spec c "-") as [->|Hc]; [reflexivity|].
  apply Ascii.eqb_neq in Hc. rewrite Hc. reflexivity.
Qed.

Lemma str_replace_cons (c : ascii) (s : string) :
  str_replace "-" "_" (String c s)
  = String (hyphen_to_underscore c) (str_replace "-" "_" s).
Proof. reflexivity. Qed.

Lemma str_replace_idem (s : string) :
  str_replace "-" "_" (str_replace "-" "_" s) = str_replace "-" "_" s.
Proof.
  induction s as [|c s IH]; [reflexivity|].
  rewrite !str_replace_cons, hyphen_idem, IH. reflexivity.
Qed.

Lemma str_replace_no_hyphen (s : string) :
  ~ In "-"%char (list_ascii_of_string (str_replace "-" "_" s)).
Proof.
  induction s as [|c s IH]; [intros []|].
  rewrite str_replace_cons. cbn [list_ascii_of_string In]. intros [H|H]; [|exact (IH H)].
  unfold hyphen_to_underscore in H.
  destruct (Ascii.eqb_spec c "-") as [->|Hc]; [discriminate|congruence].
Qed.

Lemma digits_then_x_replace (s : string) :
  digits_then_x (str_replace "-" "_" s)
  = option_map (str_replace "-" "_") (digits_then_x s).
Proof.
  induction s as [|c s IH]; [reflexivity|].
  rewrite str_replace_cons. cbn [digits_then_x].
  rewrite hyphen_is_digit, hyphen_eqb_x.
  destruct (is_digit c); [exact IH|]. destruct (Ascii.eqb c "x"); reflexivity.
Qed.

Lemma match_density_replace (s : string) :
  match_density (str_replace "-" "_" s)
  = option_map (str_replace "-" "_") (match_density s).
Proof.
  destruct s as [|c [|d s]]; [reflexivity|reflexivity|].
  rewrite !str_replace_cons. cbn [match_density].
  rewrite hyphen_is_digit, hyphen_eqb_at.
  destruct (Ascii.eqb c "@" && is_digit d); [|reflexivity].
  apply digits_then_x_replace.
Qed.

(** Replacing hyphens neither makes nor breaks a match. *)
Lemma re_sub_density_replace (s : string) :
  re_sub_density (str_replace "-" "_" s)
  = str_replace "-" "_" (re_sub_density s).
Proof.
  induction s as [|c s rest Hm IH|c s Hm IH] using scan_ind.
  - reflexivity.
  - rewrite (re_sub_density_eq (String c s)), Hm, <- IH.
    rewrite (re_sub_density_eq (str_replace _ _ (String c s))).
    rewrite match_density_replace, Hm. reflexivity.
  - rewrite (re_sub_density_eq (String c s)), Hm.
    rewrite (re_sub_density_eq (str_replace _ _ (String c s))).
    rewrite match_density_replace, Hm. cbn [option_map].
    rewrite !str_replace_cons, IH. reflexivity.
Qed.

(** ** When one pass is enough *)

Lemma has_match_false_fixed (t : string) :
  has_match t = false -> re_sub_density t = t.
Proof.
  induction t as [|c t IH]; [reflexivity|].
  cbn [has_match]. intros H. apply orb_false_iff in H as [Hm Ht].
  rewrite re_sub_density_eq.
  destruct (match_density (String c t)); [discriminate|].
  rewrite IH by assumption. reflexivity.
Qed.

Lemma match_density_not_at (c : ascii) (s : string) :
  Ascii.eqb c "@" = false -> match_density (String c s) = None.
Proof. intros Hc. destruct s as [|d s]; [reflexivity|]. cbn [match_density]. rewrite Hc. reflexivity. Qed.

Lemma is_digit_not_at (c : ascii) : is_digit c = true -> Ascii.eqb c "@" = false.
Proof. destruct (Ascii.eqb_spec c "@") as [->|]; [discriminate|reflexivity]. Qed.

Lemma re_sub_density_keep (c : ascii) (s : string) :
  Ascii.eqb c "@" = false ->
  re_sub_density (String c s) = String c (re_sub_density s).
Proof. intros Hc. rewrite re_sub_density_eq, match_density_not_at by assumption. reflexivity. Qed.

Lemma digits_then_x_re_sub (s : string) :
  head_is_at (skip_digits s) = false ->
  digits_then_x s = None -> digits_then_x (re_sub_density s) = None.
Proof.
  induction s as [|e t IH]; [reflexivity|].
  cbn [skip_digits digits_then_x]. destruct (is_digit e) eqn:Ed.
  - intros Hh Hn. rewrite re_sub_density_keep by (apply is_digit_not_at, Ed).
    cbn [digits_then_x]. rewrite Ed. apply IH; assumption.
  - cbn [head_is_at]. intros He Hx. rewrite re_sub_density_keep by assumption.
    cbn [digits_then_x]. rewrite Ed.
    destruct (Ascii.eqb e "x"); [discriminate|reflexivity].
Qed.

Lemma match_density_re_sub (c : ascii) (s : string) :
  at_run_at (String c s) = false ->
  match_density (String c s) = None ->
  match_density (String c (re_sub_density s)) = None.
Proof.
  destruct (Ascii.eqb c "@") eqn:Ec; [|intros; apply match_density_not_at, Ec].
  cbn [at_run_at]. rewrite Ec. cbn [andb].
  destruct s as [|d t]; [reflexivity|].
  cbn [skip_digits match_density]. rewrite Ec. cbn [andb].
  destruct (is_digit d) eqn:Ed.
  - intros Hh Hn. rewrite re_sub_density_keep by (apply is_digit_not_at, Ed).
    cbn [match_density]. rewrite ?Ec, Ed. cbn [andb].
    apply digits_then_x_re_sub; assumption.
  - cbn [head_is_at]. intros Hd _. rewrite re_sub_density_keep by assumption.
    cbn [match_density]. rewrite Ed, ?andb_false_r. reflexivity.
Qed.

Lemma digits_then_x_at_chain (s r : string) :
  digits_then_x s = Some r -> at_chain s = false -> at_chain r = false.
Proof.
  induction s as [|e t IH]; [discriminate|].
  cbn [digits_then_x at_chain]. intros Hm Hc. apply orb_false_iff in Hc as [_ Hc].
  destruct (is_digit e); [apply IH; assumption|].
  destruct (Ascii.eqb e "x"); [|discriminate]. injection Hm as <-. exact Hc.
Qed.

Lemma match_density_at_chain (s r : string) :
  match_density s = Some r -> at_chain s = false -> at_chain r = false.
Proof.
  destruct s as [|c [|d t]]; try discriminate.
  cbn [match_density]. destruct (Ascii.eqb c "@" && is_digit d); [|discriminate].
  intros Hm Hc. cbn [at_chain] in Hc.
  apply orb_false_iff in Hc as [_ Hc]. apply orb_false_iff in Hc as [_ Hc].
  eapply digits_then_x_at_chain; eassumption.
Qed.

Lemma re_sub_density_no_match (s : string) :
  at_chain s = false -> has_match (re_sub_density s) = false.
Proof.
  induction s as [|c s rest Hm IH|c s Hm IH] using scan_ind; intros Hc.
  - reflexivity.
  - rewrite re_sub_density_eq, Hm. apply IH. eapply match_density_at_chain; eassumption.
  - rewrite re_sub_density_eq, Hm. cbn [has_match at_chain] in *.
    apply orb_false_iff in Hc as [Hr Hc].
    rewrite (match_density_re_sub c s Hr Hm). cbn [orb]. apply IH, Hc.
Qed.

(** * Facts about paths *)

Lemma append_assoc (a b c : string) : (a ++ b) ++ c = a ++ (b ++ c).
Proof.
  induction a as [|x a IH]; [reflexivity|].
  change ((String x a ++ b) ++ c) with (String x ((a ++ b) ++ c)).
  rewrite IH. reflexivity.
Qed.

Lemma has_slash_app (a b : string) : has_slash (a ++ b) = has_slash a || has_slash b.
Proof.
  induction a as [|c a IH]; [reflexivity|].
  change (String c a ++ b) with (String c (a ++ b)).
  cbn [has_slash]. rewrite IH, orb_assoc. reflexivity.
Qed.

Lemma has_slash_basename (p : string) : has_slash (basename p) = false.
Proof.
  induction p as [|c p IH]; [reflexivity|].
  cbn [basename]. destruct (has_slash p) eqn:Hp; [exact IH|].
  destruct (Ascii.eqb c "/") eqn:Hc; [exact Hp|].
  cbn [has_slash]. rewrite Hc, Hp. reflexivity.
Qed.

Lemma has_slash_digits_then_x (s r : string) :
  digits_then_x s = Some r -> has_slash s = false -> has_slash r = false.
Proof.
  induction s as [|c s IH]; [discriminate|].
  cbn [digits_then_x has_slash]. intros Hm Hs. apply orb_false_iff in Hs as [_ Hs].
  destruct (is_digit c); [apply IH; assumption|].
  destruct (Ascii.eqb c "x"); [|discriminate]. injection Hm as <-. exact Hs.
Qed.

Lemma has_slash_match_density (s r : string) :
  match_density s = Some r -> has_slash s = false -> has_slash r = false.
Proof.
  destruct s as [|c [|d s]]; try discriminate. cbn [match_density].
  destruct (Ascii.eqb c "@" && is_digit d); [|discriminate].
  intros Hm Hs. cbn [has_slash] in Hs.
  apply orb_false_iff in Hs as [_ Hs]. apply orb_false_iff in Hs as [_ Hs].
  eapply has_slash_digits_then_x; eassumption.
Qed.

Lemma has_slash_re_sub_density (s : string) :
  has_slash s = false -> has_slash (re_sub_density s) = false.
Proof.
  induction s as [|c s rest Hm IH|c s Hm IH] using scan_ind; intros Hs.
  - reflexivity.
  - rewrite re_sub_density_eq, Hm. apply IH. eapply has_slash_match_density; eassumption.
  - rewrite re_sub_density_eq, Hm. cbn [has_slash] in *.
    apply orb_false_iff in Hs as [Hc Hs]. rewrite Hc, IH by assumption. reflexivity.
Qed.

Lemma has_slash_str_replace (s : string) :
  has_slash (str_replace "-" "_" s) = has_slash s.
Proof.
  induction s as [|c s IH]; [reflexivity|].
  rewrite str_replace_cons. cbn [has_slash]. rewrite IH. f_equal.
  unfold hyphen_to_underscore. destruct (Ascii.eqb_spec c "-") as [->|]; reflexivity.
Qed.

(** The normalised base name is one path component. *)
Lemma has_slash_normalize_basename (file_path : string) :
  has_slash (normalize_file_name (basename file_path)) = false.
Proof.
  unfold normalize_file_name. rewrite has_slash_str_replace.
  apply has_slash_re_sub_density, has_slash_basename.
Qed.

Lemma startswith_no_slash (p : string) : has_slash p = false -> startswith_slash p = false.
Proof.
  destruct p as [|c p]; [reflexivity|]. cbn [has_slash startswith_slash].
  intros H. apply orb_false_iff in H as [H _]. exact H.
Qed.

Lemma endswith_slash_app (a b : string) :
  b <> EmptyString -> endswith_slash (a ++ b) = endswith_slash b.
Proof.
  intros Hb. induction a as [|c a IH]; [reflexivity|].
  change (String c a ++ b) with (String c (a ++ b)).
  cbn [endswith_slash]. destruct (a ++ b) eqn:E; [|exact IH].
  destruct a; [|discriminate]. destruct b; [congruence|discriminate].
Qed.

Lemma head_part_no_slash (p : string) : has_slash p = false -> head_part p = EmptyString.
Proof. destruct p as [|c p]; [reflexivity|]. cbn [head_part]. intros ->. reflexivity. Qed.

Lemma head_part_app_slash (d b : string) :
  has_slash b = false -> head_part (d ++ String "/" b) = d ++ String "/" EmptyString.
Proof.
  intros Hb. induction d as [|c d IH].
  - change ("" ++ String "/" b) with (String "/" b). cbn [head_part has_slash Ascii.eqb Bool.eqb orb].
    rewrite head_part_no_slash by assumption. reflexivity.
  - change (String c d ++ String "/" b) with (String c (d ++ String "/" b)).
    cbn [head_part]. change (String c (d ++ String "/" b)) with (String c d ++ String "/" b).
    rewrite has_slash_app. cbn [has_slash Ascii.eqb Bool.eqb orb].
    rewrite orb_true_r, IH. reflexivity.
Qed.

Lemma rstrip_slash_app_slash (d : string) :
  d <> EmptyString -> endswith_slash d = false ->
  rstrip_slash (d ++ String "/" EmptyString) = d.
Proof.
  induction d as [|c d IH]; [congruence|]. intros _ He.
  change (String c d ++ String "/" "") with (String c (d ++ String "/" "")).
  cbn [rstrip_slash]. destruct d as [|c' d].
  - cbn [endswith_slash] in He. cbn. rewrite He. reflexivity.
  - rewrite IH by (discriminate || exact He). reflexivity.
Qed.

Lemma dirname_app_slash (d b : string) :
  d <> EmptyString -> endswith_slash d = false -> has_slash b = false ->
  dirname (d ++ String "/" b) = d.
Proof.
  intros Hd He Hb. unfold dirname.
  rewrite head_part_app_slash, rstrip_slash_app_slash by assumption.
  destruct d; [congruence|reflexivity].
Qed.

(** A directory of the layout, joined to the output folder, is not empty
    and does not end in a slash. *)
Lemma join2_relative (a b : string) :
  startswith_slash b = false -> b <> EmptyString ->
  exists a', join2 a b = a' ++ b.
Proof.
  intros Hs Hb. unfold join2. rewrite Hs.
  destruct (String.eqb a "" || endswith_slash a).
  - exists a. reflexivity.
  - exists (a ++ "/"). rewrite append_assoc. reflexivity.
Qed.

Lemma app_nonempty_r (a b : string) : b <> EmptyString -> a ++ b <> EmptyString.
Proof. destruct a; [trivial|discriminate]. Qed.

Lemma join2_file (d b : string) :
  d <> EmptyString -> endswith_slash d = false -> has_slash b = false ->
  join2 d b = d ++ String "/" b.
Proof.
  intros Hd He Hb. unfold join2.
  rewrite (startswith_no_slash b Hb), He.
  destruct (String.eqb_spec d ""); [congruence|reflexivity].
Qed.

(** Saving into a directory of the layout needs just that directory. *)
Lemma dirname_join_layout (output_folder sub file_name : string) :
  startswith_slash sub = false -> sub <> EmptyString -> endswith_slash sub = false ->
  has_slash file_name = false ->
  dirname (join output_folder [sub; file_name]) = join output_folder [sub].
Proof.
  intros Hs Hne He Hf. cbn [join fold_left].
  destruct (join2_relative output_folder sub Hs Hne) as [a' Ha]. rewrite Ha.
  assert (a' ++ sub <> "") by (apply app_nonempty_r, Hne).
  assert (endswith_slash (a' ++ sub) = false) by (rewrite endswith_slash_app; assumption).
  rewrite join2_file by assumption. apply dirname_app_slash; assumption.
Qed.

Lemma drawable_layout (r : resolution_type) :
  startswith_slash (DRAWABLE_FOLDER_PATH r) = false /\
  DRAWABLE_FOLDER_PATH r <> EmptyString /\
  endswith_slash (DRAWABLE_FOLDER_PATH r) = false.
Proof. destruct r; repeat split; discriminate. Qed.

Lemma playstore_layout :
  startswith_slash PLAYSTORE_FOLDER_PATH = false /\
  PLAYSTORE_FOLDER_PATH <> EmptyString /\
  endswith_slash PLAYSTORE_FOLDER_PATH = false.
Proof. repeat split; discriminate. Qed.

(** * Facts about the two computations on sizes *)

(** The factors are small multiples of [2^51] on a 53-bit mantissa. *)
Lemma RELATIVE_SIZES_repr (r : resolution_type) :
  exists mc ec k,
    RELATIVE_SIZES r = S754_finite false mc ec /\
    Z.pos (Pos.size mc) = 53 /\
    Z.pos mc = k * 2 ^ 51 /\ 0 < k /\
    -53 <= ec <= -50 /\
    forall n, 0 <= n -> Z.shiftl (n * Z.pos mc) ec = Qfloor (inject_Z n * relative_scale r).
Proof.
  destruct r.
  - exists 6755399441055744%positive, (-53), 3. repeat split; try reflexivity; try lia.
    intros n Hn. rewrite Z.shiftl_div_pow2 by lia.
    change (Qfloor (inject_Z n * relative_scale ldpi)) with ((n * 3) / (1 * 4)).
    change (Z.pos 6755399441055744) with (3 * 2 ^ 51).
    change (2 ^ (- -53)) with (4 * 2 ^ 51).
    rewrite Z.mul_assoc, Z.div_mul_cancel_r by lia. reflexivity.
  - exists 4503599627370496%positive, (-52), 2. repeat split; try reflexivity; try lia.
    intros n Hn. rewrite Z.shiftl_div_pow2 by lia.
    change (Qfloor (inject_Z n * relative_scale mdpi)) with ((n * 1) / (1 * 1)).
    change (Z.pos 4503599627370496) with (1 * 2 ^ 52).
    change (2 ^ (- -52)) with (1 * 2 ^ 52).
    rewrite Z.mul_assoc, Z.div_mul_cancel_r by lia. reflexivity.
  - exists 6755399441055744%positive, (-52), 3. repeat split; try reflexivity; try lia.
    intros n Hn. rewrite Z.shiftl_div_pow2 by lia.
    change (Qfloor (inject_Z n * relative_scale hdpi)) with ((n * 3) / (1 * 2)).
    change (Z.pos 6755399441055744) with (3 * 2 ^ 51).
    change (2 ^ (- -52)) with (2 * 2 ^ 51).
    rewrite Z.mul_assoc, Z.div_mul_cancel_r by lia. reflexivity.
  - exists 4503599627370496%positive, (-51), 2. repeat split; try reflexivity; try lia.
    intros n Hn. rewrite Z.shiftl_div_pow2 by lia.
    change (Qfloor (inject_Z n * relative_scale xhdpi)) with ((n * 2) / (1 * 1)).
    change (Z.pos 4503599627370496) with (2 * 2 ^ 51).
    change (2 ^ (- -51)) with (1 * 2 ^ 51).
    rewrite Z.mul_assoc, Z.div_mul_cancel_r by lia. reflexivity.
  - exists 6755399441055744%positive, (-51), 3. repeat split; try reflexivity; try lia.
    intros n Hn. rewrite Z.shiftl_div_pow2 by lia.
    change (Qfloor (inject_Z n * relative_scale xxhdpi)) with ((n * 3) / (1 * 1)).
    change (Z.pos 6755399441055744) with (3 * 2 ^ 51).
    change (2 ^ (- -51)) with (1 * 2 ^ 51).
    rewrite Z.mul_assoc, Z.div_mul_cancel_r by lia. reflexivity.
  - exists 4503599627370496%positive, (-50), 2. repeat split; try reflexivity; try lia.
    intros n Hn. rewrite Z.shiftl_div_pow2 by lia.
    change (Qfloor (inject_Z n * relative_scale xxxhdpi)) with ((n * 4) / (1 * 1)).
    change (Z.pos 4503599627370496) with (4 * 2 ^ 50).
    change (2 ^ (- -50)) with (1 * 2 ^ 50).
    rewrite Z.mul_assoc, Z.div_mul_cancel_r by lia. reflexivity.
Qed.

(** Below [2^51] the scaled size is computed without any rounding. *)
Lemma target_size_for_exact (n : Z) (r : resolution_type) :
  0 < n < 2 ^ 51 ->
  target_size_for n r = Ok (Qfloor (inject_Z n * relative_scale r)).
Proof.
  intros Hn. unfold target_size_for.
  replace (n >? 0) with true by (symmetry; apply Z.gtb_lt; lia).
  destruct (float_of_int_exact n) as (m & d & En & Szm & Hd & Bn & Vm); [lia|].
  destruct (RELATIVE_SIZES_repr r) as (mc & ec & k & Ec & Szc & Vc & Hk & Hec & Hfloor).
  assert (Hd51 : d <= 51).
  { destruct (Z_lt_le_dec 51 d) as [Hgt|]; [|lia].
    assert (2 ^ 51 <= 2 ^ (d - 1)) by (apply Z.pow_le_mono_r; lia). lia. }
  unfold int_mul_float. rewrite En, Ec. cbn [bind].
  rewrite int_of_float_mul_exact; try assumption; try lia.
  - f_equal. rewrite <- Hfloor by lia. rewrite Vm.
    replace (n * 2 ^ (53 - d) * Z.pos mc) with (n * Z.pos mc * 2 ^ (53 - d)) by ring.
    replace (d - 53 + ec) with (ec - (53 - d)) by lia.
    apply shiftl_mul_pow2_cancel; lia.
  - rewrite Vm, Vc. apply Z.mod_divide; [lia|].
    exists (n * k * 2 ^ (51 - d)).
    replace (53 - d) with (51 - d + 2) by lia. rewrite Z.pow_add_r by lia.
    change (2 ^ 53) with (2 ^ 2 * 2 ^ 51). ring.
Qed.

Lemma target_size_for_fallback (n : Z) (r : resolution_type) :
  n <= 0 -> target_size_for n r = Ok (RESOLUTION_SIZES r).
Proof.
  intros Hn. unfold target_size_for.
  replace (n >? 0) with false by (symmetry; rewrite Z.gtb_ltb; apply Z.ltb_ge; lia).
  reflexivity.
Qed.

Lemma Qfloor_scale_bounds (n : Z) (r : resolution_type) :
  0 < n -> 0 <= Qfloor (inject_Z n * relative_scale r) <= 4 * n.
Proof.
  intros Hn. destruct r.
  - change (Qfloor (inject_Z n * relative_scale ldpi)) with (n * 3 / (1 * 4)).
    split; [apply Z.div_pos; lia|]. apply Z.div_le_upper_bound; lia.
  - change (Qfloor (inject_Z n * relative_scale mdpi)) with (n * 1 / (1 * 1)).
    rewrite Z.div_1_r. lia.
  - change (Qfloor (inject_Z n * relative_scale hdpi)) with (n * 3 / (1 * 2)).
    split; [apply Z.div_pos; lia|]. apply Z.div_le_upper_bound; lia.
  - change (Qfloor (inject_Z n * relative_scale xhdpi)) with (n * 2 / (1 * 1)).
    rewrite Z.div_1_r. lia.
  - change (Qfloor (inject_Z n * relative_scale xxhdpi)) with (n * 3 / (1 * 1)).
    rewrite Z.div_1_r. lia.
  - change (Qfloor (inject_Z n * relative_scale xxxhdpi)) with (n * 4 / (1 * 1)).
    rewrite Z.div_1_r. lia.
Qed.

(** A target of zero scales everything to zero. *)
Lemma scaled_side_zero (s l : Z) :
  0 < s < 2 ^ 53 -> 0 < l < 2 ^ 53 ->
  exists fl wp fs,
    float_of_int l = Ok fl /\
    int_div_float 0 fl = Ok wp /\
    float_of_int s = Ok fs /\
    int_of_float (float_mul fs wp) = Ok 0.
Proof.
  intros Hs Hl.
  destruct (float_of_int_exact l) as (Ml & dl & El & _); [lia|].
  destruct (float_of_int_exact s) as (Ms & ds & Es & _); [lia|].
  exists (S754_finite false Ml (dl - 53)), (S754_zero false), (S754_finite false Ms (ds - 53)).
  repeat split; try assumption; reflexivity.
Qed.

(** [get_width_height] on sizes a double holds exactly: the side of the
    longer source side is the target, the other one is not above it. *)
Lemma get_width_height_defined (width height target_size : Z) :
  0 < width < 2 ^ 53 -> 0 < height < 2 ^ 53 -> 0 <= target_size < 2 ^ 50 ->
  exists v,
    0 <= v <= target_size /\
    get_width_height width height target_size
    = Ok (if width >? height then (target_size, v) else (v, target_size)).
Proof.
  intros Hw Hh Ht. unfold get_width_height.
  assert (Hside : forall s l, 0 < s <= l -> l < 2 ^ 53 ->
            exists fl wp fs v,
              float_of_int l = Ok fl /\ int_div_float target_size fl = Ok wp /\
              float_of_int s = Ok fs /\ int_of_float (float_mul fs wp) = Ok v /\
              0 <= v <= target_size).
  { intros s l Hs Hl. destruct (Z.eq_dec target_size 0) as [->|Hne].
    - destruct (scaled_side_zero s l) as (fl & wp & fs & E1 & E2 & E3 & E4); try lia.
      exists fl, wp, fs, 0. repeat split; try assumption; lia.
    - apply scaled_side_le; lia. }
  destruct (width >? height) eqn:Hcmp.
  - apply Z.gtb_lt in Hcmp.
    destruct (Hside height width) as (fl & wp & fs & v & E1 & E2 & E3 & E4 & Hv); try lia.
    exists v. split; [assumption|].
    rewrite E1. cbn [bind]. rewrite E2. cbn [bind]. rewrite E3. cbn [bind].
    rewrite E4. reflexivity.
  - rewrite Z.gtb_ltb in Hcmp. apply Z.ltb_ge in Hcmp.
    destruct (Hside width height) as (fl & wp & fs & v & E1 & E2 & E3 & E4 & Hv); try lia.
    exists v. split; [assumption|].
    rewrite E1. cbn [bind]. rewrite E2. cbn [bind]. rewrite E3. cbn [bind].
    rewrite E4. reflexivity.
Qed.

(** * Facts about the file system *)

Lemma try_makedirs_spec (p : string) (s : fs) :
  exists s',
    try_except_OSError (makedirs p) s = (Ok tt, s') /\
    files s' = files s /\ refused s' = refused s /\
    dirs s ⊆ dirs s' /\
    (p ∈ dirs s' \/ p ∈ refused s) /\
    (p ∈ dirs s \/ p ∈ refused s -> s' = s).
Proof.
  unfold try_except_OSError, makedirs.
  destruct (decide (p ∈ dirs s)) as [Hin|Hnin].
  - exists s. repeat split; auto. 
  - destruct (decide (p ∈ refused s)) as [Hr|Hnr].
    + exists s. repeat split; auto.
    + eexists. split; [reflexivity|]. cbn [files refused dirs].
      repeat split; try reflexivity.
      * intros q Hq. apply elem_of_union. left. apply elem_of_union. left. exact Hq.
      * left. apply elem_of_union. right. apply elem_of_singleton. reflexivity.
      * intros [H|H]; contradiction.
Qed.

Lemma for_each_makedirs_spec (paths : list string) (s : fs) :
  exists s',
    for_each paths (fun p => try_except_OSError (makedirs p)) s = (Ok tt, s') /\
    files s' = files s /\ refused s' = refused s /\
    dirs s ⊆ dirs s' /\
    (forall p, In p paths -> p ∈ dirs s' \/ p ∈ refused s) /\
    ((forall p, In p paths -> p ∈ dirs s \/ p ∈ refused s) -> s' = s).
Proof.
  revert s. induction paths as [|p paths IH]; intros s.
  - exists s. repeat split; auto. intros p [].
  - destruct (try_makedirs_spec p s) as (s1 & E1 & F1 & R1 & D1 & P1 & I1).
    destruct (IH s1) as (s2 & E2 & F2 & R2 & D2 & P2 & I2).
    exists s2. cbn [for_each]. unfold iobind. rewrite E1, E2.
    split; [reflexivity|]. split; [congruence|]. split; [congruence|].
    split; [intros q Hq; apply D2, D1, Hq|]. split.
    + intros q [<-|Hq].
      * destruct P1 as [H|H]; [left; apply D2, H|right; exact H].
      * rewrite <- R1. apply P2, Hq.
    + intros Hall. assert (s1 = s) as -> by (apply I1, Hall; left; reflexivity).
      apply I2. intros q Hq. apply Hall. right. exact Hq.
Qed.

Lemma for_each_map {A B} (f : A -> B) (xs : list A) (body : B -> io unit) :
  for_each (List.map f xs) body = for_each xs (fun x => body (f x)).
Proof. induction xs as [|x xs IH]; [reflexivity|]. cbn [List.map for_each]. rewrite IH. reflexivity. Qed.

Lemma create_directories_spec (output_folder : string) (s : fs) :
  exists s',
    create_directories output_folder s = (Ok tt, s') /\
    files s' = files s /\ refused s' = refused s /\
    dirs s ⊆ dirs s' /\
    (forall r, drawable_dir output_folder r ∈ dirs s'
               \/ drawable_dir output_folder r ∈ refused s) /\
    ((forall r, drawable_dir output_folder r ∈ dirs s
                \/ drawable_dir output_folder r ∈ refused s) -> s' = s).
Proof.
  destruct (for_each_makedirs_spec
              (List.map (drawable_dir output_folder) RESOLUTION_TYPES) s)
    as (s' & E & F & R & D & P & I).
  rewrite for_each_map in E.
  exists s'. split; [exact E|]. split; [exact F|]. split; [exact R|]. split; [exact D|].
  split.
  - intros r. apply P. apply in_map. destruct r; cbn; tauto.
  - intros Hall. apply I. intros p Hp. apply in_map_iff in Hp as (r & <- & _). apply Hall.
Qed.

Lemma Image_save_ok (im : image) (path : string) (s : fs) :
  dirname path ∈ dirs s ->
  Image_save im path s
  = (Ok tt, mkFs (dirs s) (<[ path := Picture (fst (size im)) (snd (size im)) ]> (files s))
                 (refused s)).
Proof. intros H. unfold Image_save. destruct (decide (dirname path ∈ dirs s)); [reflexivity|contradiction]. Qed.

(** One pass of the loop goes through when the directory is there. *)
Lemma resize_one_ok (output_folder file_path : string) (im : image)
    (width height : Z) (r : resolution_type) (s : fs) :
  0 < width < 2 ^ 31 -> 0 < height < 2 ^ 31 ->
  drawable_dir output_folder r ∈ dirs s ->
  exists s',
    resize_one output_folder (basename file_path) im width height
      (if width >? height then width else height) r s = (Ok tt, s') /\
    dirs s' = dirs s /\ refused s' = refused s.
Proof.
  intros Hw Hh Hdir. unfold resize_one, iobind, lift.
  set (baseline := if width >? height then width else height).
  assert (Hb : 0 < baseline < 2 ^ 31) by (unfold baseline; destruct (width >? height); lia).
  rewrite target_size_for_exact by lia.
  pose proof (Qfloor_scale_bounds baseline r ltac:(lia)) as Hq.
  set (t := Qfloor (inject_Z baseline * relative_scale r)) in *.
  destruct (get_width_height_defined width height t) as (v & Hv & E); try lia.
  rewrite E.
  destruct (drawable_layout r) as (L1 & L2 & L3).
  rewrite Image_save_ok.
  - eexists. split; [reflexivity|]. split; reflexivity.
  - rewrite dirname_join_layout; try assumption.
    apply has_slash_normalize_basename.
Qed.

(** * Facts about [resize] *)

Lemma resize_loop_ok (keys : list resolution_type) (output_folder file_path : string)
    (im : image) (width height : Z) (s : fs) :
  0 < width < 2 ^ 31 -> 0 < height < 2 ^ 31 ->
  (forall r, drawable_dir output_folder r ∈ dirs s) ->
  exists s',
    for_each keys
      (resize_one output_folder (basename file_path) im width height
         (if width >? height then width else height)) s = (Ok tt, s') /\
    dirs s' = dirs s /\ refused s' = refused s.
Proof.
  intros Hw Hh. revert s. induction keys as [|r keys IH]; intros s Hdirs.
  - exists s. repeat split; reflexivity.
  - destruct (resize_one_ok output_folder file_path im width height r s Hw Hh (Hdirs r))
      as (s1 & E1 & D1 & R1).
    destruct (IH s1) as (s2 & E2 & D2 & R2).
    { intros r'. rewrite D1. apply Hdirs. }
    exists s2. cbn [for_each]. unfold iobind at 1. rewrite E1, E2.
    repeat split; congruence.
Qed.

(** The run up to the end of the loop. *)
Lemma resize_up_to_loop (keys : list resolution_type) (output_folder file_path : string)
    (desired_size_mdpi : option Z) (with_playstore : bool) (s : fs) (width height : Z) :
  files s !! file_path = Some (Picture width height) ->
  0 < width < 2 ^ 31 -> 0 < height < 2 ^ 31 ->
  (forall r, drawable_dir output_folder r ∉ refused s) ->
  exists s2,
    resize keys output_folder file_path None false s = (Ok tt, s2) /\
    refused s2 = refused s /\
    resize keys output_folder file_path desired_size_mdpi with_playstore s
    = (if with_playstore then
         (create_playstore_directory output_folder ;;
          let* new_size := lift (get_width_height width height PLAYSTORE_SIZE) in
          Image_save (Image_resize (mkImage (width, height)) new_size)
            (join output_folder
               [PLAYSTORE_FOLDER_PATH; normalize_file_name (basename file_path)]))%io s2
       else (Ok tt, s2)).
Proof.
  intros Hfile Hw Hh Href.
  destruct (create_directories_spec output_folder s) as (s1 & E1 & F1 & R1 & D1 & P1 & _).
  assert (Hdirs : forall r, drawable_dir output_folder r ∈ dirs s1).
  { intros r. destruct (P1 r) as [H|H]; [exact H|]. exfalso. exact (Href r H). }
  destruct (resize_loop_ok keys output_folder file_path (mkImage (width, height))
              width height s1 Hw Hh Hdirs) as (s2 & E2 & D2 & R2).
  assert (Hopen : Image_open file_path s1 = (Ok (mkImage (width, height)), s1)).
  { unfold Image_open. rewrite F1, Hfile. reflexivity. }
  exists s2. split; [|split].
  - unfold resize, iobind. rewrite E1, Hopen. cbn [size fst snd]. rewrite E2. reflexivity.
  - congruence.
  - unfold resize, iobind at 1 2 3. rewrite E1, Hopen. cbn [size fst snd]. rewrite E2.
    destruct with_playstore; reflexivity.
Qed.

(** * The claims *)

(** C1 (defect).  A 49 by 49 icon scaled for the store listing should come
    out 512 by 512, [49 * 512 / 49] being 512 exactly; the two roundings of
    [49.0 * (512 / 49.0)] leave the product just below 512 and [int] cuts
    it to 511.  The same happens to a 49 by 98 source at target 1024. *)
Theorem get_width_height_truncates_rounded_product :
  get_width_height 49 49 512 = Ok (511, 512) /\ 49 * 512 / 49 = 512 /\
  get_width_height 49 98 1024 = Ok (511, 1024) /\ 49 * 1024 / 98 = 512.
Proof. split; [|split; [|split]]; vm_compute; reflexivity. Qed.

(** C2.  [resize] does the same whatever [desired_size_mdpi] it is given:
    the argument is overwritten with the longer side of the image before
    it is read. *)
Theorem resize_ignores_desired_size
    (keys : list resolution_type) (output_folder file_path : string)
    (size1 size2 : option Z) (with_playstore : bool) (s : fs) :
  resize keys output_folder file_path size1 with_playstore s
  = resize keys output_folder file_path size2 with_playstore s.
Proof. reflexivity. Qed.

(** C4 (defect).  On a square source the comparison [width > height] is
    false, so the height gets the target, as the claim says; the width
    should then be the target as well, and for 49 by 49 at 512 it is 511. *)
Theorem get_width_height_square_not_square :
  (49 >? 49) = false /\
  get_width_height 49 49 512 = Ok (511, 512) /\
  get_width_height 49 49 512 <> Ok (512, 512).
Proof. split; [|split]; vm_compute; congruence. Qed.

(** C5, counterexample.  Two suffixes in one name: both go, where taking
    out the first match only would leave the second. *)
Lemma normalize_file_name_not_first_only :
  normalize_file_name "a@2x-b@3x.png"
  <> str_replace "-" "_" (remove_first_density "a@2x-b@3x.png").
Proof. vm_compute. discriminate. Qed.

Lemma str_replace_app (old new : ascii) (a b : string) :
  str_replace old new (a ++ b) = str_replace old new a ++ str_replace old new b.
Proof.
  induction a as [|c a IH]; [reflexivity|].
  change (String c a ++ b) with (String c (a ++ b)).
  cbn [str_replace]. rewrite IH. reflexivity.
Qed.

(** C5, as amended.  [normalize_file_name] takes out every match of
    [@<digits>x], scanning from the left, wherever it stands: a name with a
    match in it normalises to what is before the match followed by what is
    behind it, both normalised.  A name without a match only has its
    hyphens replaced, no hyphen is ever left, and
    ["icon@2x-test.png"] becomes ["icon_test.png"]. *)
Theorem normalize_file_name_removes_every_match (p ds r : string) :
  ds <> EmptyString -> all_digits ds ->
  normalize_file_name (p ++ String "@" (ds ++ String "x" r))
  = normalize_file_name p ++ normalize_file_name r /\
  (forall s, has_match s = false -> normalize_file_name s = str_replace "-" "_" s) /\
  (forall s, ~ In "-"%char (list_ascii_of_string (normalize_file_name s))) /\
  normalize_file_name "icon@2x-test.png" = "icon_test.png".
Proof.
  intros Hne Hds. split; [|split; [|split]].
  - unfold normalize_file_name.
    rewrite re_sub_density_app_token by assumption. apply str_replace_app.
  - intros s Hs. unfold normalize_file_name. rewrite has_match_false_fixed by assumption.
    reflexivity.
  - intros s. apply str_replace_no_hyphen.
  - reflexivity.
Qed.

Lemma normalize_file_name_removes_every_match_witness :
  normalize_file_name ("a" ++ String "@" ("2" ++ String "x" "-b@3x.png"))
  = normalize_file_name "a" ++ normalize_file_name "-b@3x.png".
Proof.
  refine (proj1 (normalize_file_name_removes_every_match "a" "2" "-b@3x.png" _ _)).
  - discriminate.
  - intros c [<-|[]]. reflexivity.
Defined.

(** C6, counterexample.  Taking out one match can bring the pieces of
    another together. *)
Lemma normalize_file_name_not_idempotent :
  normalize_file_name (normalize_file_name "@@1x1x.png")
  <> normalize_file_name "@@1x1x.png".
Proof. vm_compute. discriminate. Qed.

(** C6, as amended.  [normalize_file_name] is idempotent on every name in
    which no two at signs have only digits (or nothing) between them. *)
Theorem normalize_file_name_idempotent (s : string) :
  at_chain s = false ->
  normalize_file_name (normalize_file_name s) = normalize_file_name s.
Proof.
  intros Hs. unfold normalize_file_name.
  rewrite re_sub_density_replace, str_replace_idem.
  rewrite (has_match_false_fixed (re_sub_density s)); [reflexivity|].
  apply re_sub_density_no_match, Hs.
Qed.

Lemma normalize_file_name_idempotent_witness :
  normalize_file_name (normalize_file_name "icon@2x-test.png")
  = normalize_file_name "icon@2x-test.png".
Proof. apply normalize_file_name_idempotent. reflexivity. Defined.

Lemma get_width_height_max (width height target_size new_width new_height : Z) :
  0 < width < 2 ^ 53 -> 0 < height < 2 ^ 53 -> 0 <= target_size < 2 ^ 50 ->
  get_width_height width height target_size = Ok (new_width, new_height) ->
  Z.max new_width new_height = target_size /\
  (if width >? height then new_width else new_height) = target_size.
Proof.
  intros Hw Hh Ht E.
  destruct (get_width_height_defined width height target_size Hw Hh Ht) as (v & Hv & E').
  rewrite E' in E. destruct (width >? height); injection E as <- <-; lia.
Qed.

(** The storefront file sits below the output folder as the layout says. *)
Lemma playstore_path_shape (output_folder file_name : string) :
  output_folder <> EmptyString -> endswith_slash output_folder = false ->
  has_slash file_name = false ->
  join output_folder [PLAYSTORE_FOLDER_PATH; file_name]
  = output_folder ++ "/res/playstore/" ++ file_name.
Proof.
  intros Hne He Hf. cbn [join fold_left].
  assert (E : join2 output_folder PLAYSTORE_FOLDER_PATH = output_folder ++ "/res/playstore").
  { unfold join2. cbn [startswith_slash PLAYSTORE_FOLDER_PATH Ascii.eqb Bool.eqb].
    rewrite He. destruct (String.eqb_spec output_folder ""); [congruence|reflexivity]. }
  rewrite E. rewrite join2_file.
  - rewrite append_assoc. reflexivity.
  - apply app_nonempty_r. discriminate.
  - rewrite endswith_slash_app by discriminate. reflexivity.
  - exact Hf.
Qed.

(** C7.  With the storefront flag, and nothing in the way of the
    directories, [resize] completes and leaves the files of the run without
    the flag plus one: at [<output>/res/playstore/<normalised name>], sized
    by [get_width_height] from the source size and 512, so that its longer
    side, the one of the longer source side, is 512. *)
Theorem resize_with_playstore
    (keys : list resolution_type) (output_folder file_path : string)
    (desired_size_mdpi : option Z) (s : fs) (width height : Z) :
  files s !! file_path = Some (Picture width height) ->
  0 < width < 2 ^ 31 -> 0 < height < 2 ^ 31 ->
  (forall r, drawable_dir output_folder r ∉ refused s) ->
  playstore_dir output_folder ∉ refused s ->
  let file_name := normalize_file_name (basename file_path) in
  let path := join output_folder [PLAYSTORE_FOLDER_PATH; file_name] in
  exists s0 s1 new_width new_height,
    resize keys output_folder file_path desired_size_mdpi false s = (Ok tt, s0) /\
    resize keys output_folder file_path desired_size_mdpi true s = (Ok tt, s1) /\
    get_width_height width height PLAYSTORE_SIZE = Ok (new_width, new_height) /\
    files s1 = <[ path := Picture new_width new_height ]> (files s0) /\
    Z.max new_width new_height = 512 /\
    (if width >? height then new_width else new_height) = 512 /\
    (output_folder <> EmptyString -> endswith_slash output_folder = false ->
     path = output_folder ++ "/res/playstore/" ++ file_name).
Proof.
  intros Hfile Hw Hh Href Hrefp file_name path.
  destruct (resize_up_to_loop keys output_folder file_path desired_size_mdpi true s
              width height Hfile Hw Hh Href) as (s2 & E0 & R2 & E1).
  destruct (resize_up_to_loop keys output_folder file_path desired_size_mdpi false s
              width height Hfile Hw Hh Href) as (s2' & E0' & _ & E1').
  assert (s2' = s2) as -> by congruence.
  destruct (try_makedirs_spec (playstore_dir output_folder) s2)
    as (s3 & E3 & F3 & R3 & D3 & P3 & _).
  assert (Hdir : playstore_dir output_folder ∈ dirs s3).
  { destruct P3 as [H|H]; [exact H|]. rewrite R2 in H. contradiction. }
  destruct (get_width_height_defined width height PLAYSTORE_SIZE)
    as (v & Hv & Eg); try (unfold PLAYSTORE_SIZE; lia).
  set (new_size := if width >? height then (PLAYSTORE_SIZE, v) else (v, PLAYSTORE_SIZE)) in *.
  destruct (playstore_layout) as (L1 & L2 & L3).
  assert (Hname : has_slash file_name = false) by apply has_slash_normalize_basename.
  exists s2, (mkFs (dirs s3) (<[ path := Picture (fst new_size) (snd new_size) ]> (files s3))
                   (refused s3)), (fst new_size), (snd new_size).
  split; [exact E1'|]. split.
  { rewrite E1. unfold iobind, lift, create_playstore_directory.
    fold (playstore_dir output_folder). rewrite E3, Eg.
    rewrite Image_save_ok; [reflexivity|].
    fold file_name. rewrite dirname_join_layout by assumption. exact Hdir. }
  split; [rewrite Eg; destruct new_size; reflexivity|].
  split; [cbn [files]; rewrite F3; reflexivity|].
  destruct (get_width_height_max width height PLAYSTORE_SIZE (fst new_size) (snd new_size))
    as [Hmax Hlong]; try (unfold PLAYSTORE_SIZE; lia).
  { rewrite Eg. destruct new_size; reflexivity. }
  split; [exact Hmax|]. split; [exact Hlong|].
  intros Hne He. apply playstore_path_shape; assumption.
Qed.

Lemma resize_with_playstore_witness :
  exists s0 s1 new_width new_height,
    resize RESOLUTION_TYPES "out" "in/my-icon@2x.png" None false
      (mkFs ∅ {[ "in/my-icon@2x.png" := Picture 100 200 ]} ∅) = (Ok tt, s0) /\
    resize RESOLUTION_TYPES "out" "in/my-icon@2x.png" None true
      (mkFs ∅ {[ "in/my-icon@2x.png" := Picture 100 200 ]} ∅) = (Ok tt, s1) /\
    get_width_height 100 200 PLAYSTORE_SIZE = Ok (new_width, new_height) /\
    files s1 = <[ "out/res/playstore/my_icon.png" := Picture new_width new_height ]> (files s0) /\
    Z.max new_width new_height = 512.
Proof.
  destruct (resize_with_playstore RESOLUTION_TYPES "out" "in/my-icon@2x.png" None
              (mkFs ∅ {[ "in/my-icon@2x.png" := Picture 100 200 ]} ∅) 100 200)
    as (s0 & s1 & nw & nh & H0 & H1 & Hg & Hf & Hm & _).
  - reflexivity.
  - lia.
  - lia.
  - intros r. apply not_elem_of_empty.
  - apply not_elem_of_empty.
  - exists s0, s1, nw, nh. repeat split; assumption.
Defined.

(** C8.  Neither [create_directories] nor [create_playstore_directory]
    raises, on any file system.  [makedirs] does raise [OSError] on a
    directory that is there already and on one the system refuses; both
    are passed over and leave the file system as it was.  A second
    [create_directories] after the first changes nothing, and after a whole
    run of [resize] it still returns normally. *)
Theorem create_directories_never_raise (output_folder p : string) (s : fs) :
  fst (create_directories output_folder s) = Ok tt /\
  fst (create_playstore_directory output_folder s) = Ok tt /\
  (let there := mkFs ({[ p ]} ∪ dirs s) (files s) (refused s) in
   fst (makedirs p there) = Raise OSError /\
   try_except_OSError (makedirs p) there = (Ok tt, there)) /\
  (let denied := mkFs (dirs s) (files s) ({[ p ]} ∪ refused s) in
   fst (makedirs p denied) = Raise OSError /\
   try_except_OSError (makedirs p) denied = (Ok tt, denied)) /\
  create_directories output_folder (snd (create_directories output_folder s))
  = (Ok tt, snd (create_directories output_folder s)) /\
  create_playstore_directory output_folder
    (snd (create_playstore_directory output_folder s))
  = (Ok tt, snd (create_playstore_directory output_folder s)) /\
  forall keys file_path desired_size_mdpi with_playstore,
    fst (create_directories output_folder
           (snd (resize keys output_folder file_path desired_size_mdpi with_playstore s)))
    = Ok tt.
Proof.
  assert (Hcd : forall s0, fst (create_directories output_folder s0) = Ok tt).
  { intros s0. destruct (create_directories_spec output_folder s0) as (s' & E & _).
    rewrite E. reflexivity. }
  split; [apply Hcd|]. split.
  { destruct (try_makedirs_spec (playstore_dir output_folder) s) as (s' & E & _).
    unfold create_playstore_directory. fold (playstore_dir output_folder).
    rewrite E. reflexivity. }
  split.
  { cbv zeta. unfold try_except_OSError, makedirs. cbn [dirs].
    destruct (decide (p ∈ {[ p ]} ∪ dirs s)) as [_|Hn]; [split; reflexivity|].
    exfalso. apply Hn, elem_of_union. left. apply elem_of_singleton. reflexivity. }
  split.
  { cbv zeta. unfold try_except_OSError, makedirs. cbn [dirs refused].
    destruct (decide (p ∈ dirs s)); [split; reflexivity|].
    destruct (decide (p ∈ {[ p ]} ∪ refused s)) as [_|Hn]; [split; reflexivity|].
    exfalso. apply Hn, elem_of_union. left. apply elem_of_singleton. reflexivity. }
  split.
  { destruct (create_directories_spec output_folder s) as (s1 & E1 & F1 & R1 & D1 & P1 & _).
    rewrite E1. cbn [snd].
    destruct (create_directories_spec output_folder s1) as (s2 & E2 & _ & _ & _ & _ & I2).
    rewrite E2. f_equal. apply I2. intros r. rewrite R1. apply P1. }
  split.
  { unfold create_playstore_directory. fold (playstore_dir output_folder).
    destruct (try_makedirs_spec (playstore_dir output_folder) s)
      as (s1 & E1 & F1 & R1 & D1 & P1 & _).
    rewrite E1. cbn [snd].
    destruct (try_makedirs_spec (playstore_dir output_folder) s1)
      as (s2 & E2 & _ & _ & _ & _ & I2).
    rewrite E2. f_equal. apply I2. rewrite R1. exact P1. }
  intros keys file_path d wp. apply Hcd.
Qed.

(** C9 (defect).  A square source should give a square result; 98 by 98
    at 512 comes out 511 by 512, upright. *)
Theorem get_width_height_square_turns_portrait :
  get_width_height 98 98 512 = Ok (511, 512) /\ 511 < 512 /\ ~ 98 < 98.
Proof. split; [vm_compute; reflexivity|lia]. Qed.

(** C10.  When the input file is missing or is no image, [resize] raises
    the error of [Image.open], and the file system it leaves is the one
    [create_directories] made: the six directories are there, unless the
    system refused them. *)
Theorem resize_decode_failure_keeps_directories
    (keys : list resolution_type) (output_folder file_path : string)
    (desired_size_mdpi : option Z) (with_playstore : bool) (s : fs) :
  files s !! file_path = None \/ files s !! file_path = Some Garbage ->
  (forall r, drawable_dir output_folder r ∉ refused s) ->
  exists s',
    resize keys output_folder file_path desired_size_mdpi with_playstore s
    = (Raise IOError, s') /\
    create_directories output_folder s = (Ok tt, s') /\
    files s' = files s /\
    forall r, drawable_dir output_folder r ∈ dirs s'.
Proof.
  intros Hfile Href.
  destruct (create_directories_spec output_folder s) as (s1 & E1 & F1 & R1 & D1 & P1 & _).
  exists s1. split; [|split; [exact E1|split; [exact F1|]]].
  - unfold resize, iobind. rewrite E1. unfold Image_open. rewrite F1.
    destruct Hfile as [-> | ->]; reflexivity.
  - intros r. destruct (P1 r) as [H|H]; [exact H|]. exfalso. exact (Href r H).
Qed.

Lemma resize_decode_failure_keeps_directories_witness :
  exists s',
    resize RESOLUTION_TYPES "out" "missing.png" None false (mkFs ∅ ∅ ∅)
    = (Raise IOError, s') /\
    "out/res/drawable-ldpi" ∈ dirs s' /\ "out/res/drawable-xxxhdpi" ∈ dirs s'.
Proof.
  destruct (resize_decode_failure_keeps_directories RESOLUTION_TYPES "out" "missing.png"
              None false (mkFs ∅ ∅ ∅)) as (s' & E & _ & _ & Hd).
  - left. reflexivity.
  - intros r. apply not_elem_of_empty.
  - exists s'. split; [exact E|]. split; [exact (Hd ldpi)|exact (Hd xxxhdpi)].
Defined.

(** * Further facts about binary64 arithmetic *)

(** Rounding moves a value by less than one part in [2^52], either way. *)
Lemma binary_round_aux_two_sided (m : positive) (e : Z) (l : location) :
  let n := Z.pos (Pos.size m) - 53 in
  0 <= n -> -1074 <= e + n -> e + n + 1 <= 971 ->
  exists mf a,
    binary_round_aux prec emax false (Z.pos m) e l = S754_finite false mf (e + a) /\
    Z.pos (Pos.size mf) = 53 /\
    n <= a <= n + 1 /\
    2 ^ 52 * (Z.pos mf * 2 ^ a) <= Z.pos m * (2 ^ 52 + 1) /\
    Z.pos m * (2 ^ 52 - 1) <= 2 ^ 52 * (Z.pos mf * 2 ^ a).
Proof.
  intros n Hn Hlo Hhi.
  destruct (binary_round_aux_spec m e l Hn Hlo Hhi) as (mf & ef & Heq & Hsz & Hef & Hval & _).
  fold n in Hef, Hval.
  exists mf, (ef - e). replace (e + (ef - e)) with ef by lia.
  split; [assumption|]. split; [assumption|]. split; [lia|].
  pose proof (size_bounds m) as Hm.
  replace (Z.pos (Pos.size m) - 1) with (n + 52) in Hm by (unfold n; lia).
  rewrite Z.pow_add_r in Hm by lia.
  assert (0 < 2 ^ n) by (apply Z.pow_pos_nonneg; lia).
  pose proof (Z.div_mod (Z.pos m) (2 ^ n) ltac:(lia)) as Hdm.
  pose proof (Z.mod_pos_bound (Z.pos m) (2 ^ n) ltac:(lia)) as Hmod.
  split; nia.
Qed.

Lemma SFmul_two_sided (mx my : positive) (ex ey : Z) :
  Z.pos (Pos.size mx) = 53 -> Z.pos (Pos.size my) = 53 ->
  -1074 <= ex + ey + 52 -> ex + ey + 54 <= 971 ->
  exists mr b,
    float_mul (S754_finite false mx ex) (S754_finite false my ey)
    = S754_finite false mr (ex + ey + b) /\
    52 <= b <= 54 /\
    2 ^ 52 * (Z.pos mr * 2 ^ b) <= Z.pos mx * Z.pos my * (2 ^ 52 + 1) /\
    Z.pos mx * Z.pos my * (2 ^ 52 - 1) <= 2 ^ 52 * (Z.pos mr * 2 ^ b).
Proof.
  intros Hx Hy Hlo Hhi. pose proof (size_product mx my Hx Hy) as Hn.
  unfold float_mul, SFmul. cbn [xorb].
  destruct (binary_round_aux_two_sided (mx * my) (ex + ey) loc_Exact)
    as (mr & b & Heq & Hsz & Hb & Hup & Hdn); try lia.
  exists mr, b. rewrite Pos2Z.inj_mul in Hup, Hdn.
  repeat split; try assumption; lia.
Qed.

Lemma SFdiv_two_sided (mx my : positive) (ex ey : Z) :
  Z.pos (Pos.size mx) = 53 -> Z.pos (Pos.size my) = 53 ->
  -1074 <= ex - ey - 53 -> ex - ey - 53 + 2 <= 971 ->
  exists mq a q,
    SFdiv prec emax (S754_finite false mx ex) (S754_finite false my ey)
    = S754_finite false mq (ex - ey - 53 + a) /\
    Z.pos (Pos.size mq) = 53 /\
    0 <= a <= 2 /\
    2 ^ 52 <= q /\
    q * Z.pos my <= Z.pos mx * 2 ^ 53 < (q + 1) * Z.pos my /\
    2 ^ 52 * (Z.pos mq * 2 ^ a) <= q * (2 ^ 52 + 1) /\
    q * (2 ^ 52 - 1) <= 2 ^ 52 * (Z.pos mq * 2 ^ a).
Proof.
  intros Hx Hy Hlo Hhi.
  pose proof (size_bounds mx) as Bx. pose proof (size_bounds my) as By.
  rewrite Hx in Bx. rewrite Hy in By. change (53 - 1) with 52 in *.
  unfold SFdiv, SFdiv_core_binary. cbn [xorb].
  rewrite !Zdigits2_pos, Hx, Hy.
  replace (Z.min (fexp prec emax (53 + ex - (53 + ey))) (ex - ey)) with (ex - ey - 53)
    by (unfold fexp, SpecFloat.emin, prec, emax; lia).
  replace (ex - ey - (ex - ey - 53)) with 53 by lia.
  rewrite Z.shiftl_mul_pow2 by lia.
  pose proof (Z_div_mod (Z.pos mx * 2 ^ 53) (Z.pos my) ltac:(lia)) as Hdm.
  destruct (Z.div_eucl (Z.pos mx * 2 ^ 53) (Z.pos my)) as [q r].
  destruct Hdm as [Hdm Hr].
  assert (Hq : 2 ^ 52 <= q < 2 ^ 54).
  { change (2 ^ 54) with (2 * 2 ^ 53). change (2 ^ 53) with (2 * 2 ^ 52) in *. nia. }
  destruct q as [|pq|pq]; try lia.
  assert (Hn : 0 <= Z.pos (Pos.size pq) - 53 <= 1).
  { destruct (Z_lt_le_dec (Z.pos pq) (2 ^ 53)).
    - rewrite (size_unique pq 53); lia.
    - rewrite (size_unique pq 54); lia. }
  destruct (binary_round_aux_two_sided pq (ex - ey - 53) (new_location (Z.pos my) r))
    as (mq & a & Heq & Hsz & Ha & Hup & Hdn); try lia.
  exists mq, a, (Z.pos pq).
  repeat split; try assumption; try lia.
Qed.

(** From the two bounds on the rounded product to its integer part. *)
Lemma within_one_of_quotient (s t l mr X : Z) :
  0 < s -> 0 < l -> 0 < t -> s * t < 2 ^ 50 ->
  0 < mr -> 0 < X ->
  2 ^ 104 * mr * l <= (2 ^ 52 + 1) * (2 ^ 52 + 1) * s * t * X ->
  (2 ^ 52 - 1) * (2 ^ 52 - 1) * (2 ^ 52 * (s * t * X)) < 2 ^ 104 * (2 ^ 52 + 1) * mr * l ->
  s * t / l - 1 <= mr / X <= s * t / l.
Proof.
  intros Hs Hl Ht Hst Hmr HX U L.
  pose proof (Z.div_mod mr X ltac:(lia)) as Hdm.
  pose proof (Z.mod_pos_bound mr X ltac:(lia)) as Hmod.
  set (v := mr / X) in *. set (r := mr mod X) in *.
  assert (Hv0 : 0 <= v) by (apply Z.div_pos; lia).
  set (st := s * t) in *.
  assert (Hst0 : 0 < st) by (unfold st; apply Z.mul_pos_pos; assumption).
  assert (Hup : v * l <= st).
  { assert (E : 2 ^ 104 * (v * l) * X <= (2 ^ 52 + 1) * (2 ^ 52 + 1) * st * X).
    { transitivity (2 ^ 104 * mr * l).
      - replace (2 ^ 104 * (v * l) * X) with (2 ^ 104 * (X * v) * l) by ring.
        apply Z.mul_le_mono_nonneg_r; [lia|]. apply Z.mul_le_mono_nonneg_l; lia.
      - unfold st. replace ((2 ^ 52 + 1) * (2 ^ 52 + 1) * (s * t) * X)
          with ((2 ^ 52 + 1) * (2 ^ 52 + 1) * s * t * X) by ring. exact U. }
    apply Z.mul_le_mono_pos_r in E; [|exact HX].
    set (vl := v * l) in *. lia. }
  assert (Hvl : v <= v * l).
  { replace v with (v * 1) at 1 by ring. apply Z.mul_le_mono_nonneg_l; lia. }
  assert (Hdn : st < (v + 2) * l).
  { assert (E : (2 ^ 52 - 1) * (2 ^ 52 - 1) * 2 ^ 52 * st * X
                < 2 ^ 104 * (2 ^ 52 + 1) * ((v + 1) * l) * X).
    { apply Z.lt_le_trans with (2 ^ 104 * (2 ^ 52 + 1) * mr * l).
      - unfold st. replace ((2 ^ 52 - 1) * (2 ^ 52 - 1) * 2 ^ 52 * (s * t) * X)
          with ((2 ^ 52 - 1) * (2 ^ 52 - 1) * (2 ^ 52 * (s * t * X))) by ring. exact L.
      - replace (2 ^ 104 * (2 ^ 52 + 1) * ((v + 1) * l) * X)
          with (2 ^ 104 * (2 ^ 52 + 1) * ((v + 1) * X) * l) by ring.
        apply Z.mul_le_mono_nonneg_r; [lia|]. apply Z.mul_le_mono_nonneg_l; lia. }
    apply Z.mul_lt_mono_pos_r in E; [|exact HX].
    destruct (Z_lt_le_dec st ((v + 2) * l)) as [|Hge]; [assumption|exfalso].
    set (vl := v * l) in *.
    replace ((v + 1) * l) with (vl + l) in E by (unfold vl; ring).
    replace ((v + 2) * l) with (vl + 2 * l) in Hge by (unfold vl; ring).
    lia. }
  split.
  - assert (st / l < v + 2) by (apply Z.div_lt_upper_bound; lia). lia.
  - apply Z.div_le_lower_bound; lia.
Qed.

(** The arithmetic behind [scaled_side_within_one]. *)
Lemma two_roundings_within_one (s t l mr mq q P T L A B X : Z) :
  0 < s -> 0 < l -> 0 < t -> s * t < 2 ^ 50 -> t < 2 ^ 50 ->
  0 < mr -> 0 < mq -> 2 ^ 52 <= q ->
  0 < P -> 0 < T -> 0 < L -> 0 < A -> 0 < B -> 0 < X ->
  q * (l * L) <= t * T * 2 ^ 53 < (q + 1) * (l * L) ->
  2 ^ 52 * (mq * A) <= q * (2 ^ 52 + 1) ->
  q * (2 ^ 52 - 1) <= 2 ^ 52 * (mq * A) ->
  2 ^ 52 * (mr * B) <= s * P * mq * (2 ^ 52 + 1) ->
  s * P * mq * (2 ^ 52 - 1) <= 2 ^ 52 * (mr * B) ->
  X * A * B * L = P * T * 2 ^ 53 ->
  s * t / l - 1 <= mr / X <= s * t / l.
Proof.
  intros Hs Hl Ht Hst Ht50 Hmr Hmq Hq HP HT HL HA HB HX [H2a H2b] H3a H3b H4a H4b H5.
  set (cp := 2 ^ 52 + 1) in *. set (cm := 2 ^ 52 - 1) in *.
  assert (Hcp : 0 < cp) by (unfold cp; lia).
  assert (Hcm : 0 < cm) by (unfold cm; lia).
  assert (HK : 0 < A * B * L) by nia.
  (* from above *)
  assert (U1 : 2 ^ 52 * (2 ^ 52 * (mr * B)) * (A * (l * L))
               <= cp * cp * (s * P) * (t * T * 2 ^ 53)).
  { transitivity (2 ^ 52 * (s * P * mq * cp) * (A * (l * L))).
    - apply Z.mul_le_mono_nonneg_r; [nia|]. apply Z.mul_le_mono_nonneg_l; lia.
    - replace (2 ^ 52 * (s * P * mq * cp) * (A * (l * L)))
        with (s * P * cp * (2 ^ 52 * (mq * A)) * (l * L)) by ring.
      transitivity (s * P * cp * (q * cp) * (l * L)).
      + apply Z.mul_le_mono_nonneg_r; [nia|]. apply Z.mul_le_mono_nonneg_l; nia.
      + replace (s * P * cp * (q * cp) * (l * L))
          with (cp * cp * (s * P) * (q * (l * L))) by ring.
        apply Z.mul_le_mono_nonneg_l; nia. }
  assert (U2 : 2 ^ 104 * mr * l * (A * B * L) <= cp * cp * s * t * X * (A * B * L)).
  { replace (2 ^ 104 * mr * l * (A * B * L))
      with (2 ^ 52 * (2 ^ 52 * (mr * B)) * (A * (l * L)))
      by (change (2 ^ 104) with (2 ^ 52 * 2 ^ 52); ring).
    replace (cp * cp * s * t * X * (A * B * L))
      with (cp * cp * (s * P) * (t * T * 2 ^ 53))
      by (replace (cp * cp * s * t * X * (A * B * L))
            with (cp * cp * s * t * (X * A * B * L)) by ring; rewrite H5; ring).
    exact U1. }
  apply Z.mul_le_mono_pos_r in U2; [|exact HK].
  (* from below *)
  assert (L1 : cm * cm * (s * P) * (2 ^ 52 * (t * T * 2 ^ 53))
               < 2 ^ 52 * (2 ^ 52 * (mr * B)) * (A * (cp * (l * L)))).
  { apply Z.lt_le_trans with (cm * cm * (s * P) * (2 ^ 52 * ((q + 1) * (l * L)))).
    - apply Zmult_lt_compat_l; [nia|]. apply Zmult_lt_compat_l; lia.
    - transitivity (cm * cm * (s * P) * (q * cp * (l * L))).
      + apply Z.mul_le_mono_nonneg_l; [nia|].
        replace (2 ^ 52 * ((q + 1) * (l * L))) with (2 ^ 52 * (q + 1) * (l * L)) by ring.
        apply Z.mul_le_mono_nonneg_r; [nia|]. unfold cp. lia.
      + replace (cm * cm * (s * P) * (q * cp * (l * L)))
          with (s * P * cm * (q * cm) * (cp * (l * L))) by ring.
        transitivity (s * P * cm * (2 ^ 52 * (mq * A)) * (cp * (l * L))).
        * apply Z.mul_le_mono_nonneg_r; [nia|]. apply Z.mul_le_mono_nonneg_l; nia.
        * replace (s * P * cm * (2 ^ 52 * (mq * A)) * (cp * (l * L)))
            with (2 ^ 52 * (s * P * mq * cm) * (A * (cp * (l * L)))) by ring.
          apply Z.mul_le_mono_nonneg_r; [nia|]. apply Z.mul_le_mono_nonneg_l; lia. }
  assert (L2 : cm * cm * (2 ^ 52 * (s * t * X)) * (A * B * L)
               < 2 ^ 104 * cp * mr * l * (A * B * L)).
  { replace (cm * cm * (2 ^ 52 * (s * t * X)) * (A * B * L))
      with (cm * cm * (s * P) * (2 ^ 52 * (t * T * 2 ^ 53)))
      by (replace (cm * cm * (2 ^ 52 * (s * t * X)) * (A * B * L))
            with (cm * cm * s * t * 2 ^ 52 * (X * A * B * L)) by ring; rewrite H5; ring).
    replace (2 ^ 104 * cp * mr * l * (A * B * L))
      with (2 ^ 52 * (2 ^ 52 * (mr * B)) * (A * (cp * (l * L))))
      by (change (2 ^ 104) with (2 ^ 52 * 2 ^ 52); ring).
    exact L1. }
  apply Z.mul_lt_mono_pos_r in L2; [|exact HK].
  apply (within_one_of_quotient s t l mr X); assumption.
Qed.

(** The side that is not pinned: the exact quotient cut to an integer, or
    one less. *)
Lemma scaled_side_within_one (s l t : Z) :
  0 < s <= l -> l < 2 ^ 53 -> 0 < t -> s * t < 2 ^ 50 ->
  exists fl wp fs v,
    float_of_int l = Ok fl /\
    int_div_float t fl = Ok wp /\
    float_of_int s = Ok fs /\
    int_of_float (float_mul fs wp) = Ok v /\
    s * t / l - 1 <= v <= s * t / l.
Proof.
  intros Hs Hl Ht Hst.
  assert (Ht50 : t < 2 ^ 50) by nia.
  destruct (float_of_int_exact l) as (Ml & dl & El & Szl & Hdl & Bl & Vl); [lia|].
  destruct (float_of_int_exact t) as (Mt & dt & Et & Szt & Hdt & Bt & Vt); [lia|].
  destruct (float_of_int_exact s) as (Ms & ds & Es & Szs & Hds & Bs & Vs); [lia|].
  assert (Hdsl : ds <= dl).
  { destruct (Z_lt_le_dec dl ds) as [Hgt|]; [|lia].
    assert (2 ^ dl <= 2 ^ (ds - 1)) by (apply Z.pow_le_mono_r; lia). lia. }
  assert (Hdt50 : dt <= 50).
  { destruct (Z_lt_le_dec 50 dt) as [Hgt|]; [|lia].
    assert (2 ^ 50 <= 2 ^ (dt - 1)) by (apply Z.pow_le_mono_r; lia). lia. }
  destruct (SFdiv_two_sided Mt Ml (dt - 53) (dl - 53))
    as (mq & a & q & Eq & Szq & Ha & Hq & Hq1 & Hq2 & Hq3); try assumption; try lia.
  destruct (SFmul_two_sided Ms mq (ds - 53) (dt - 53 - (dl - 53) - 53 + a))
    as (mr & b & Er & Hb & Hr1 & Hr2); try assumption; try lia.
  set (er := ds - 53 + (dt - 53 - (dl - 53) - 53 + a) + b) in *.
  exists (S754_finite false Ml (dl - 53)), (S754_finite false mq (dt - 53 - (dl - 53) - 53 + a)),
    (S754_finite false Ms (ds - 53)), (Z.shiftl (Z.pos mr) er).
  split; [assumption|]. split.
  { unfold int_div_float. rewrite Et. cbn [bind]. unfold float_div. cbn [is_zero].
    rewrite Eq. reflexivity. }
  split; [assumption|]. split.
  { rewrite Er. reflexivity. }
  assert (Her : er <= 0) by (unfold er; lia).
  rewrite Z.shiftl_div_pow2 by assumption.
  apply (two_roundings_within_one s t l (Z.pos mr) (Z.pos mq) q
           (2 ^ (53 - ds)) (2 ^ (53 - dt)) (2 ^ (53 - dl)) (2 ^ a) (2 ^ b) (2 ^ (- er)));
    try lia; try (apply Z.pow_pos_nonneg; lia).
  rewrite <- !Z.pow_add_r by lia. f_equal. unfold er. lia.
Qed.

Lemma new_location_zero (nb : Z) : new_location nb 0 = loc_Exact.
Proof. unfold new_location. destruct (Z.even nb); reflexivity. Qed.

Lemma size_mul_pow2 (p p' : positive) (w : Z) :
  0 <= w -> Z.pos p' = Z.pos p * 2 ^ w ->
  Z.pos (Pos.size p') = Z.pos (Pos.size p) + w.
Proof.
  intros Hw E. pose proof (size_bounds p) as [Hlo Hhi].
  assert (0 < 2 ^ w) by (apply Z.pow_pos_nonneg; lia).
  apply size_unique. rewrite E.
  replace (Z.pos (Pos.size p) + w - 1) with (Z.pos (Pos.size p) - 1 + w) by lia.
  rewrite !Z.pow_add_r by lia. split.
  - apply Z.mul_le_mono_nonneg_r; lia.
  - apply Z.mul_lt_mono_pos_r; lia.
Qed.

(** A product whose low bits are all zero is exact, and so is its integer
    part. *)
Lemma int_of_float_mul_exact_low (mx my : positive) (ex ey : Z) :
  Z.pos (Pos.size mx) = 53 -> Z.pos (Pos.size my) = 53 ->
  -1074 <= ex + ey + 52 -> ex + ey + 54 <= 971 ->
  (Z.pos mx * Z.pos my) mod 2 ^ (Z.pos (Pos.size (mx * my)) - 53) = 0 ->
  int_of_float (float_mul (S754_finite false mx ex) (S754_finite false my ey))
  = Ok (Z.shiftl (Z.pos mx * Z.pos my) (ex + ey)).
Proof.
  intros Hx Hy Hlo Hhi Hdiv. pose proof (size_product mx my Hx Hy) as Hn.
  unfold float_mul, SFmul. cbn [xorb].
  set (n := Z.pos (Pos.size (mx * my)) - 53) in *.
  destruct (binary_round_aux_spec (mx * my) (ex + ey) loc_Exact)
    as (mf & ef & Heq & _ & _ & _ & Hex); try (fold n; lia).
  fold n in Hex. rewrite Pos2Z.inj_mul in Hex.
  destruct Hex as [Hmf Hef]; [reflexivity|assumption|].
  rewrite Heq. cbn [int_of_float cond_Zopp]. f_equal.
  rewrite Hmf, Hef.
  apply Z.mod_divide in Hdiv; [|apply Z.pow_nonzero; lia]. destruct Hdiv as [k Hk].
  rewrite Hk. rewrite Z.div_mul by (apply Z.pow_nonzero; lia).
  assert (0 < 2 ^ n) by (apply Z.pow_pos_nonneg; lia).
  symmetry. replace (ex + ey) with (ex + ey + n - n) at 1 by lia.
  apply shiftl_mul_pow2_cancel; nia.
Qed.

(** Dividing a multiple by its divisor gives the factor, exactly. *)
Lemma SFdiv_exact_multiple (mx my : positive) (ex ey k j : Z) :
  Z.pos (Pos.size mx) = 53 -> Z.pos (Pos.size my) = 53 ->
  -1074 <= ex - ey - 53 -> ex - ey - 53 + 2 <= 971 ->
  0 < k -> 1 <= j ->
  Z.pos mx * 2 ^ 53 = k * 2 ^ j * Z.pos my ->
  exists mq u,
    SFdiv prec emax (S754_finite false mx ex) (S754_finite false my ey)
    = S754_finite false mq (ex - ey - 53 + (j - u)) /\
    Z.pos (Pos.size mq) = 53 /\
    0 <= u /\ Z.pos mq = k * 2 ^ u.
Proof.
  intros Hx Hy Hlo Hhi Hk Hj Hmul.
  pose proof (size_bounds mx) as Bx. pose proof (size_bounds my) as By.
  rewrite Hx in Bx. rewrite Hy in By. change (53 - 1) with 52 in *.
  assert (Hpj : 0 < 2 ^ j) by (apply Z.pow_pos_nonneg; lia).
  unfold SFdiv, SFdiv_core_binary. cbn [xorb].
  rewrite !Zdigits2_pos, Hx, Hy.
  replace (Z.min (fexp prec emax (53 + ex - (53 + ey))) (ex - ey)) with (ex - ey - 53)
    by (unfold fexp, SpecFloat.emin, prec, emax; lia).
  replace (ex - ey - (ex - ey - 53)) with 53 by lia.
  rewrite Z.shiftl_mul_pow2 by lia.
  pose proof (Z_div_mod (Z.pos mx * 2 ^ 53) (Z.pos my) ltac:(lia)) as Hdm.
  destruct (Z.div_eucl (Z.pos mx * 2 ^ 53) (Z.pos my)) as [q r].
  destruct Hdm as [Hdm Hr].
  assert (Hqr : q = k * 2 ^ j /\ r = 0).
  { rewrite Hmul in Hdm.
    assert (Hr0 : r = Z.pos my * (k * 2 ^ j - q)) by lia.
    assert (k * 2 ^ j - q = 0) by nia. split; nia. }
  destruct Hqr as [Hq ->]. rewrite new_location_zero.
  assert (Hqb : 2 ^ 52 <= q < 2 ^ 54).
  { change (2 ^ 54) with (2 * 2 ^ 53). change (2 ^ 53) with (2 * 2 ^ 52) in *. nia. }
  destruct q as [|pq|pq]; try lia.
  set (n := Z.pos (Pos.size pq) - 53).
  assert (Hn : 0 <= n <= 1).
  { unfold n. destruct (Z_lt_le_dec (Z.pos pq) (2 ^ 53)).
    - rewrite (size_unique pq 53); lia.
    - rewrite (size_unique pq 54); lia. }
  assert (E2n : 2 ^ j = 2 ^ (j - n) * 2 ^ n)
    by (rewrite <- Z.pow_add_r by lia; f_equal; lia).
  assert (Hpn : 0 < 2 ^ n) by (apply Z.pow_pos_nonneg; lia).
  destruct (binary_round_aux_spec pq (ex - ey - 53) loc_Exact)
    as (mq & ef & Heq & Hsz & _ & _ & Hexact); try (fold n; lia).
  fold n in Hexact.
  destruct Hexact as [Hmq Hef]; [reflexivity| |].
  { rewrite Hq, E2n, Z.mul_assoc. apply Z.mod_mul. lia. }
  exists mq, (j - n). rewrite Heq, Hef.
  split; [do 2 f_equal; lia|]. split; [assumption|]. split; [lia|].
  rewrite Hmq, Hq, E2n, Z.mul_assoc. apply Z.div_mul. lia.
Qed.

(** Scaling by a whole factor is exact. *)
Lemma scaled_side_exact_multiple (s l k : Z) :
  0 < s <= l -> 0 < k -> k * l < 2 ^ 53 ->
  exists fl wp fs,
    float_of_int l = Ok fl /\
    int_div_float (k * l) fl = Ok wp /\
    float_of_int s = Ok fs /\
    int_of_float (float_mul fs wp) = Ok (k * s).
Proof.
  intros Hs Hk Hkl.
  assert (Hl : 0 < l < 2 ^ 53) by nia.
  assert (Hks : 0 < k * s < 2 ^ 53) by nia.
  destruct (float_of_int_exact l) as (Ml & dl & El & Szl & Hdl & Bl & Vl); [lia|].
  destruct (float_of_int_exact (k * l)) as (Mt & dt & Et & Szt & Hdt & Bt & Vt); [nia|].
  destruct (float_of_int_exact s) as (Ms & ds & Es & Szs & Hds & Bs & Vs); [lia|].
  assert (Hdlt : dl <= dt).
  { destruct (Z_lt_le_dec dt dl) as [Hgt|]; [|lia].
    assert (2 ^ dt <= 2 ^ (dl - 1)) by (apply Z.pow_le_mono_r; lia). nia. }
  set (j := 53 - dt + dl).
  destruct (SFdiv_exact_multiple Mt Ml (dt - 53) (dl - 53) k j)
    as (mq & u & Eq & Szq & Hu & Vq); try assumption; try (unfold j; lia).
  { rewrite Vt, Vl. unfold j.
    replace (53 - dt + dl) with (53 - dt + (53 - (53 - dl))) by lia.
    assert (E : 2 ^ 53 = 2 ^ (53 - (53 - dl)) * 2 ^ (53 - dl))
      by (rewrite <- Z.pow_add_r by lia; f_equal; lia).
    rewrite Z.pow_add_r by lia. rewrite E at 1. ring. }
  set (eq := dt - 53 - (dl - 53) - 53 + (j - u)) in *.
  assert (Heq : eq = - u) by (unfold eq, j; lia).
  assert (Hu52 : u <= 52).
  { pose proof (size_bounds mq) as Bq. rewrite Szq, Vq in Bq.
    destruct (Z_lt_le_dec 52 u) as [Hgt|]; [|lia].
    assert (2 ^ 53 <= 2 ^ u) by (apply Z.pow_le_mono_r; lia). nia. }
  (* the product *)
  destruct (k * s) as [|psk|psk] eqn:Eks; try lia.
  set (w := 53 - ds + u).
  assert (Hprod : Z.pos (Ms * mq) = Z.pos psk * 2 ^ w).
  { rewrite Pos2Z.inj_mul, Vs, Vq, <- Eks. unfold w. rewrite Z.pow_add_r by lia. ring. }
  pose proof (size_mul_pow2 psk (Ms * mq) w ltac:(unfold w; lia) Hprod) as Hsize.
  assert (Hdsk : Z.pos (Pos.size psk) <= 53).
  { pose proof (size_bounds psk) as Bsk.
    destruct (Z_lt_le_dec 53 (Z.pos (Pos.size psk))) as [Hgt|]; [|lia].
    assert (2 ^ 53 <= 2 ^ (Z.pos (Pos.size psk) - 1)) by (apply Z.pow_le_mono_r; lia). lia. }
  pose proof (size_product Ms mq Szs Szq) as Hn2.
  exists (S754_finite false Ml (dl - 53)), (S754_finite false mq eq),
    (S754_finite false Ms (ds - 53)).
  split; [assumption|]. split.
  { unfold int_div_float. rewrite Et. cbn [bind]. unfold float_div. cbn [is_zero].
    rewrite Eq. reflexivity. }
  split; [assumption|].
  rewrite int_of_float_mul_exact_low; try assumption; try lia.
  - f_equal. rewrite <- Pos2Z.inj_mul, Hprod.
    replace (ds - 53 + eq) with (0 - w) by (unfold w; lia).
    rewrite shiftl_mul_pow2_cancel by (unfold w; lia). apply Z.shiftl_0_r.
  - rewrite <- Pos2Z.inj_mul, Hprod, Hsize.
    set (n2 := Z.pos (Pos.size psk) + w - 53) in *.
    assert (E : 2 ^ w = 2 ^ (w - n2) * 2 ^ n2)
      by (rewrite <- Z.pow_add_r by (unfold n2; lia); f_equal; lia).
    rewrite E, Z.mul_assoc. apply Z.mod_mul. apply Z.pow_nonzero; lia.
Qed.

(** * Further properties *)

(** X1.  On sides a double holds exactly and a target below [2^50],
    [get_width_height] returns: the side of the longer source side is the
    target, the other one lies between zero and the target, so the larger
    of the two is the target. *)
Theorem get_width_height_pins_longer_side (width height target_size : Z) :
  0 < width < 2 ^ 53 -> 0 < height < 2 ^ 53 -> 0 <= target_size < 2 ^ 50 ->
  exists new_width new_height,
    get_width_height width height target_size = Ok (new_width, new_height) /\
    (if width >? height then new_width else new_height) = target_size /\
    0 <= new_width <= target_size /\
    0 <= new_height <= target_size /\
    Z.max new_width new_height = target_size.
Proof.
  intros Hw Hh Ht.
  destruct (get_width_height_defined width height target_size Hw Hh Ht) as (v & Hv & E).
  destruct (width >? height).
  - exists target_size, v. repeat split; try assumption; lia.
  - exists v, target_size. repeat split; try assumption; lia.
Qed.

Lemma get_width_height_pins_longer_side_witness :
  exists new_width new_height,
    get_width_height 1920 1080 512 = Ok (new_width, new_height) /\
    Z.max new_width new_height = 512.
Proof.
  destruct (get_width_height_pins_longer_side 1920 1080 512)
    as (nw & nh & E & _ & _ & _ & Hm); [lia|lia|lia|].
  exists nw, nh. split; assumption.
Defined.

(** X2.  The other side is the exact quotient cut to an integer, or one
    less, and never more, as long as the shorter source side times the
    target stays below [2^50]. *)
Theorem get_width_height_within_one (width height target_size : Z) :
  0 < width < 2 ^ 53 -> 0 < height < 2 ^ 53 -> 0 < target_size ->
  Z.min width height * target_size < 2 ^ 50 ->
  exists v,
    get_width_height width height target_size
    = Ok (if width >? height then (target_size, v) else (v, target_size)) /\
    Z.min width height * target_size / Z.max width height - 1 <= v
    <= Z.min width height * target_size / Z.max width height.
Proof.
  intros Hw Hh Ht Hst. unfold get_width_height.
  destruct (width >? height) eqn:Hcmp.
  - apply Z.gtb_lt in Hcmp.
    rewrite Z.min_r, Z.max_l in * by lia.
    destruct (scaled_side_within_one height width target_size)
      as (fl & wp & fs & v & E1 & E2 & E3 & E4 & Hv); try lia.
    exists v. split; [|assumption].
    rewrite E1. cbn [bind]. rewrite E2. cbn [bind]. rewrite E3. cbn [bind].
    rewrite E4. reflexivity.
  - rewrite Z.gtb_ltb in Hcmp. apply Z.ltb_ge in Hcmp.
    rewrite Z.min_l, Z.max_r in * by lia.
    destruct (scaled_side_within_one width height target_size)
      as (fl & wp & fs & v & E1 & E2 & E3 & E4 & Hv); try lia.
    exists v. split; [|assumption].
    rewrite E1. cbn [bind]. rewrite E2. cbn [bind]. rewrite E3. cbn [bind].
    rewrite E4. reflexivity.
Qed.

Lemma get_width_height_within_one_witness :
  exists v,
    get_width_height 49 49 512 = Ok (v, 512) /\ 512 - 1 <= v <= 512.
Proof.
  destruct (get_width_height_within_one 49 49 512) as (v & E & Hv); try lia.
  exists v. split; [exact E|exact Hv].
Defined.

Lemma get_width_height_exact_multiple (width height k : Z) :
  0 < width -> 0 < height -> 0 < k -> k * Z.max width height < 2 ^ 53 ->
  get_width_height width height (k * Z.max width height)
  = Ok (k * width, k * height).
Proof.
  intros Hw Hh Hk Hb. unfold get_width_height.
  destruct (width >? height) eqn:Hcmp.
  - apply Z.gtb_lt in Hcmp. rewrite Z.max_l in * by lia.
    destruct (scaled_side_exact_multiple height width k)
      as (fl & wp & fs & E1 & E2 & E3 & E4); try lia.
    rewrite E1. cbn [bind]. rewrite E2. cbn [bind]. rewrite E3. cbn [bind].
    rewrite E4. reflexivity.
  - rewrite Z.gtb_ltb in Hcmp. apply Z.ltb_ge in Hcmp. rewrite Z.max_r in * by lia.
    destruct (scaled_side_exact_multiple width height k)
      as (fl & wp & fs & E1 & E2 & E3 & E4); try lia.
    rewrite E1. cbn [bind]. rewrite E2. cbn [bind]. rewrite E3. cbn [bind].
    rewrite E4. reflexivity.
Qed.

(** X3.  A target that is a whole multiple of the longer side scales both
    sides by that factor, exactly. *)
Theorem get_width_height_whole_factor (width height k : Z) :
  0 < width -> 0 < height -> 0 < k -> k * Z.max width height < 2 ^ 53 ->
  get_width_height width height (k * Z.max width height)
  = Ok (k * width, k * height).
Proof. exact (get_width_height_exact_multiple width height k). Qed.

Lemma get_width_height_whole_factor_witness :
  get_width_height 49 49 (3 * Z.max 49 49) = Ok (3 * 49, 3 * 49).
Proof. apply get_width_height_whole_factor; vm_compute; reflexivity. Defined.

(** X4.  In the four buckets with a whole factor the loop of [resize]
    saves an image of exactly that many times the source size: the [mdpi]
    file has the size of the source, [xhdpi] twice, [xxhdpi] three times
    and [xxxhdpi] four times that. *)
Theorem resize_one_whole_factor
    (output_folder file_name : string) (im : image) (width height k : Z)
    (r : resolution_type) (s : fs) :
  0 < width < 2 ^ 31 -> 0 < height < 2 ^ 31 ->
  whole_factor r = Some k ->
  resize_one output_folder file_name im width height
    (if width >? height then width else height) r s
  = Image_save (Image_resize im (k * width, k * height))
      (join output_folder [DRAWABLE_FOLDER_PATH r; normalize_file_name file_name]) s.
Proof.
  intros Hw Hh Hk.
  set (baseline := if width >? height then width else height).
  assert (Hb : baseline = Z.max width height).
  { unfold baseline. destruct (width >? height) eqn:E.
    - apply Z.gtb_lt in E. lia.
    - rewrite Z.gtb_ltb in E. apply Z.ltb_ge in E. lia. }
  assert (Hk4 : 0 < k <= 4)
    by (destruct r; cbn in Hk; try discriminate; injection Hk as <-; lia).
  assert (Ht : target_size_for baseline r = Ok (k * baseline)).
  { rewrite target_size_for_exact by lia. f_equal.
    destruct r; cbn in Hk; try discriminate; injection Hk as <-.
    - change (baseline * 1 / (1 * 1) = 1 * baseline). rewrite Z.div_1_r. lia.
    - change (baseline * 2 / (1 * 1) = 2 * baseline). rewrite Z.div_1_r. lia.
    - change (baseline * 3 / (1 * 1) = 3 * baseline). rewrite Z.div_1_r. lia.
    - change (baseline * 4 / (1 * 1) = 4 * baseline). rewrite Z.div_1_r. lia. }
  assert (Hkb : k * Z.max width height < 2 ^ 53).
  { apply Z.le_lt_trans with (4 * Z.max width height); [|lia].
    apply Z.mul_le_mono_nonneg_r; lia. }
  unfold resize_one, iobind, lift. rewrite Ht, Hb.
  rewrite get_width_height_exact_multiple by lia. reflexivity.
Qed.

Lemma resize_one_whole_factor_witness :
  resize_one "out" "icon.png" (mkImage (49, 49)) 49 49 (if 49 >? 49 then 49 else 49)
    xxhdpi (mkFs ∅ ∅ ∅)
  = Image_save (Image_resize (mkImage (49, 49)) (3 * 49, 3 * 49))
      (join "out" [DRAWABLE_FOLDER_PATH xxhdpi; normalize_file_name "icon.png"])
      (mkFs ∅ ∅ ∅).
Proof. apply resize_one_whole_factor; [lia|lia|reflexivity]. Defined.

(** X5.  For a baseline of two pixels or more the six target sizes grow
    strictly with the density, from three quarters of the baseline (cut to
    an integer) to four times the baseline; at one pixel [mdpi] and [hdpi]
    coincide. *)
Theorem target_sizes_grow_with_density (baseline : Z) :
  0 < baseline < 2 ^ 51 ->
  exists l m h x xx xxx,
    List.map (target_size_for baseline) RESOLUTION_TYPES
    = [Ok l; Ok m; Ok h; Ok x; Ok xx; Ok xxx] /\
    0 <= l < m /\ m <= h /\ h < x /\ x < xx /\ xx < xxx /\
    (2 <= baseline -> m < h) /\
    m = baseline /\ xxx = 4 * baseline.
Proof.
  intros Hb.
  exists (baseline * 3 / 4), baseline, (baseline * 3 / 2), (2 * baseline),
    (3 * baseline), (4 * baseline).
  split.
  { cbn [List.map RESOLUTION_TYPES]. rewrite !target_size_for_exact by lia.
    repeat f_equal.
    - change (baseline * 1 / (1 * 1) = baseline). rewrite Z.div_1_r. lia.
    - change (baseline * 2 / (1 * 1) = 2 * baseline). rewrite Z.div_1_r. lia.
    - change (baseline * 3 / (1 * 1) = 3 * baseline). rewrite Z.div_1_r. lia.
    - change (baseline * 4 / (1 * 1) = 4 * baseline). rewrite Z.div_1_r. lia. }
  pose proof (Z.div_mod (baseline * 3) 4 ltac:(lia)) as D4.
  pose proof (Z.mod_pos_bound (baseline * 3) 4 ltac:(lia)) as M4.
  pose proof (Z.div_mod (baseline * 3) 2 ltac:(lia)) as D2.
  pose proof (Z.mod_pos_bound (baseline * 3) 2 ltac:(lia)) as M2.
  repeat split; lia.
Qed.

Lemma target_sizes_grow_with_density_witness :
  exists l m h x xx xxx,
    List.map (target_size_for 200) RESOLUTION_TYPES
    = [Ok l; Ok m; Ok h; Ok x; Ok xx; Ok xxx] /\ l < m /\ m < h.
Proof.
  destruct (target_sizes_grow_with_density 200)
    as (l & m & h & x & xx & xxx & E & Hl & _ & _ & _ & _ & Hmh & _); [lia|].
  exists l, m, h, x, xx, xxx. split; [exact E|]. split; [lia|]. apply Hmh. lia.
Defined.

(** X6.  An image of size zero by zero sends the loop to the fixed bucket
    sizes, and the first pass divides by zero: [resize] raises
    [ZeroDivisionError] after [create_directories] and writes no file. *)
Theorem resize_empty_image_divides_by_zero
    (keys : list resolution_type) (output_folder file_path : string)
    (desired_size_mdpi : option Z) (with_playstore : bool) (s : fs) :
  files s !! file_path = Some (Picture 0 0) ->
  keys <> [] ->
  exists s',
    resize keys output_folder file_path desired_size_mdpi with_playstore s
    = (Raise ZeroDivisionError, s') /\
    create_directories output_folder s = (Ok tt, s') /\
    files s' = files s.
Proof.
  intros Hfile Hkeys.
  destruct (create_directories_spec output_folder s) as (s1 & E1 & F1 & _).
  exists s1. split; [|split; assumption].
  destruct keys as [|r keys]; [congruence|].
  unfold resize, iobind at 1 2. rewrite E1. unfold Image_open. rewrite F1, Hfile.
  cbn [size fst snd for_each]. unfold iobind at 1 2, resize_one, iobind, lift.
  change (0 >? 0) with false. cbv iota.
  rewrite target_size_for_fallback by lia.
  assert (E : get_width_height 0 0 (RESOLUTION_SIZES r) = Raise ZeroDivisionError)
    by (destruct r; reflexivity).
  rewrite E. reflexivity.
Qed.

Lemma resize_empty_image_divides_by_zero_witness :
  exists s',
    resize RESOLUTION_TYPES "out" "empty.png" None false
      (mkFs ∅ {[ "empty.png" := Picture 0 0 ]} ∅)
    = (Raise ZeroDivisionError, s').
Proof.
  destruct (resize_empty_image_divides_by_zero RESOLUTION_TYPES "out" "empty.png" None false
              (mkFs ∅ {[ "empty.png" := Picture 0 0 ]} ∅)) as (s' & E & _).
  - reflexivity.
  - discriminate.
  - exists s'. exact E.
Defined.

(** ** Lengths *)

Lemma length_str_replace (old new : ascii) (s : string) :
  String.length (str_replace old new s) = String.length s.
Proof. induction s as [|c s IH]; [reflexivity|]. cbn [str_replace String.length]. rewrite IH. reflexivity. Qed.

Lemma digits_then_x_shorter_by_one (s r : string) :
  digits_then_x s = Some r -> (String.length r + 1 <= String.length s)%nat.
Proof.
  induction s as [|c s IH]; [discriminate|]. cbn [digits_then_x String.length].
  destruct (is_digit c).
  - intros H. apply IH in H. lia.
  - destruct (Ascii.eqb c "x"); [|discriminate]. intros [= <-]. lia.
Qed.

(** A match is an at sign, a digit and an [x] at the least. *)
Lemma match_density_shorter_by_three (s r : string) :
  match_density s = Some r -> (String.length r + 3 <= String.length s)%nat.
Proof.
  destruct s as [|c [|d s]]; try discriminate. cbn [match_density].
  destruct (Ascii.eqb c "@" && is_digit d); [|discriminate].
  intros H. apply digits_then_x_shorter_by_one in H. cbn [String.length]. lia.
Qed.

Lemma length_re_sub_density (s : string) :
  (String.length (re_sub_density s) <= String.length s)%nat /\
  (has_match s = true -> String.length (re_sub_density s) + 3 <= String.length s)%nat.
Proof.
  induction s as [|c s rest Hm IH|c s Hm IH] using scan_ind.
  - split; [reflexivity|discriminate].
  - rewrite re_sub_density_eq, Hm. apply match_density_shorter_by_three in Hm.
    destruct IH as [IH _]. split; [lia|intros _; lia].
  - rewrite re_sub_density_eq, Hm. cbn [String.length has_match]. rewrite Hm.
    cbn [orb]. destruct IH as [IH1 IH2]. split; [lia|].
    intros H. apply IH2 in H. lia.
Qed.

Lemma str_replace_fixed (s : string) :
  str_replace "-" "_" s = s <-> ~ In "-"%char (list_ascii_of_string s).
Proof.
  induction s as [|c s IH]; [split; [intros _ []|reflexivity]|].
  rewrite str_replace_cons. cbn [list_ascii_of_string In]. split.
  - intros [= Hc Hs] [H|H].
    + subst c. discriminate.
    + apply IH in Hs. exact (Hs H).
  - intros H. f_equal.
    + unfold hyphen_to_underscore. destruct (Ascii.eqb_spec c "-") as [->|]; [|reflexivity].
      exfalso. apply H. left. reflexivity.
    + apply IH. intros H'. apply H. right. exact H'.
Qed.

(** X7.  The names [normalize_file_name] leaves alone are those without a
    match of the pattern and without a hyphen. *)
Theorem normalize_file_name_fixed_points (s : string) :
  normalize_file_name s = s
  <-> has_match s = false /\ ~ In "-"%char (list_ascii_of_string s).
Proof.
  unfold normalize_file_name. split.
  - intros E.
    assert (Hm : has_match s = false).
    { destruct (has_match s) eqn:Hm; [exfalso|reflexivity].
      apply (f_equal String.length) in E. rewrite length_str_replace in E.
      destruct (length_re_sub_density s) as [_ H]. specialize (H Hm). lia. }
    split; [exact Hm|].
    rewrite has_match_false_fixed in E by assumption. apply str_replace_fixed, E.
  - intros [Hm Hh]. rewrite has_match_false_fixed by assumption.
    apply str_replace_fixed, Hh.
Qed.

(** X8.  [normalize_file_name] never makes a name longer, and a name with
    a match in it gets shorter by three characters at least. *)
Theorem normalize_file_name_length (s : string) :
  (String.length (normalize_file_name s) <= String.length s)%nat /\
  (has_match s = true ->
   String.length (normalize_file_name s) + 3 <= String.length s)%nat.
Proof.
  unfold normalize_file_name. rewrite length_str_replace. apply length_re_sub_density.
Qed.

Lemma normalize_file_name_length_witness :
  (String.length (normalize_file_name "icon@2x-test.png") + 3
   <= String.length "icon@2x-test.png")%nat.
Proof. apply normalize_file_name_length. reflexivity. Defined.

(** ** The paths of the layout *)

(** What [join] puts in front of a relative component depends on the
    first argument only. *)
Lemma join_layout_shape (output_folder : string) :
  exists front,
    forall sub file_name,
      startswith_slash sub = false -> sub <> EmptyString ->
      endswith_slash sub = false -> has_slash file_name = false ->
      join output_folder [sub] = front ++ sub /\
      join output_folder [sub; file_name] = front ++ (sub ++ String "/" file_name).
Proof.
  exists (if String.eqb output_folder "" || endswith_slash output_folder
          then output_folder else output_folder ++ "/").
  intros sub file_name Hs Hne He Hf.
  assert (E : join2 output_folder sub
              = (if String.eqb output_folder "" || endswith_slash output_folder
                 then output_folder else output_folder ++ "/") ++ sub).
  { unfold join2. rewrite Hs.
    destruct (String.eqb output_folder "" || endswith_slash output_folder);
      [reflexivity|]. rewrite append_assoc. reflexivity. }
  cbn [join fold_left]. rewrite E. split; [reflexivity|].
  rewrite join2_file.
  - apply append_assoc.
  - apply app_nonempty_r, Hne.
  - rewrite endswith_slash_app by assumption. exact He.
  - exact Hf.
Qed.

Lemma append_cancel_l (a x y : string) : a ++ x = a ++ y -> x = y.
Proof.
  induction a as [|c a IH]; [trivial|].
  change (String c a ++ x) with (String c (a ++ x)).
  change (String c a ++ y) with (String c (a ++ y)).
  intros [= H]. apply IH, H.
Qed.

Lemma drawable_sub_inj (r1 r2 : resolution_type) (n1 n2 : string) :
  DRAWABLE_FOLDER_PATH r1 ++ String "/" n1 = DRAWABLE_FOLDER_PATH r2 ++ String "/" n2 ->
  r1 = r2.
Proof. destruct r1, r2; cbn; intros H; first [reflexivity | discriminate]. Qed.

Lemma drawable_sub_not_playstore (r : resolution_type) (n1 n2 : string) :
  DRAWABLE_FOLDER_PATH r ++ String "/" n1 <> PLAYSTORE_FOLDER_PATH ++ String "/" n2.
Proof. destruct r; cbn; discriminate. Qed.

Lemma layout_paths_differ (output_folder file_name : string)
    (r1 r2 : resolution_type) :
  has_slash file_name = false ->
  (join output_folder [DRAWABLE_FOLDER_PATH r1; file_name]
   = join output_folder [DRAWABLE_FOLDER_PATH r2; file_name] -> r1 = r2) /\
  join output_folder [DRAWABLE_FOLDER_PATH r1; file_name]
  <> join output_folder [PLAYSTORE_FOLDER_PATH; file_name].
Proof.
  intros Hf. destruct (join_layout_shape output_folder) as [front Hfront].
  destruct (drawable_layout r1) as (A1 & B1 & C1).
  destruct (drawable_layout r2) as (A2 & B2 & C2).
  destruct playstore_layout as (A3 & B3 & C3).
  destruct (Hfront _ file_name A1 B1 C1 Hf) as [_ E1].
  destruct (Hfront _ file_name A2 B2 C2 Hf) as [_ E2].
  destruct (Hfront _ file_name A3 B3 C3 Hf) as [_ E3].
  rewrite E1, E2, E3. split.
  - intros H. apply append_cancel_l in H. eapply drawable_sub_inj, H.
  - intros H. apply append_cancel_l in H. exact (drawable_sub_not_playstore _ _ _ H).
Qed.

(** X9.  For a file name that is one path component, the seven files of a
    run have seven different paths: no bucket writes over another one's
    file, and none over the storefront file. *)
Theorem layout_paths_distinct (output_folder file_name : string)
    (r1 r2 : resolution_type) :
  has_slash file_name = false ->
  (join output_folder [DRAWABLE_FOLDER_PATH r1; file_name]
   = join output_folder [DRAWABLE_FOLDER_PATH r2; file_name] -> r1 = r2) /\
  join output_folder [DRAWABLE_FOLDER_PATH r1; file_name]
  <> join output_folder [PLAYSTORE_FOLDER_PATH; file_name].
Proof. apply layout_paths_differ. Qed.

Lemma layout_paths_distinct_witness :
  join "out" [DRAWABLE_FOLDER_PATH hdpi; "icon.png"]
  <> join "out" [PLAYSTORE_FOLDER_PATH; "icon.png"].
Proof. apply (layout_paths_distinct "out" "icon.png" hdpi hdpi). reflexivity. Defined.

Lemma basename_no_slash (p : string) : has_slash p = false -> basename p = p.
Proof.
  destruct p as [|c p]; [reflexivity|]. cbn [has_slash basename].
  intros H. apply orb_false_iff in H as [Hc Hp]. rewrite Hp, Hc. reflexivity.
Qed.

Lemma basename_app_slash (d b : string) :
  has_slash b = false -> basename (d ++ String "/" b) = b.
Proof.
  intros Hb. induction d as [|c d IH].
  - change ("" ++ String "/" b) with (String "/" b).
    cbn [basename]. rewrite Hb. reflexivity.
  - change (String c d ++ String "/" b) with (String c (d ++ String "/" b)).
    cbn [basename]. rewrite has_slash_app. cbn [has_slash Ascii.eqb Bool.eqb orb].
    rewrite orb_true_r. exact IH.
Qed.

(** X10.  Taking a layout path apart gives back what it was put together
    from: its [dirname] is the bucket directory and its [basename] the
    file name, for any file name that is one path component. *)
Theorem layout_path_round_trip (output_folder file_name : string) (r : resolution_type) :
  has_slash file_name = false ->
  dirname (join output_folder [DRAWABLE_FOLDER_PATH r; file_name])
  = join output_folder [DRAWABLE_FOLDER_PATH r] /\
  basename (join output_folder [DRAWABLE_FOLDER_PATH r; file_name]) = file_name /\
  dirname (join output_folder [PLAYSTORE_FOLDER_PATH; file_name])
  = join output_folder [PLAYSTORE_FOLDER_PATH] /\
  basename (join output_folder [PLAYSTORE_FOLDER_PATH; file_name]) = file_name.
Proof.
  intros Hf. destruct (join_layout_shape output_folder) as [front Hfront].
  destruct (drawable_layout r) as (A1 & B1 & C1).
  destruct playstore_layout as (A3 & B3 & C3).
  destruct (Hfront _ file_name A1 B1 C1 Hf) as [_ E1].
  destruct (Hfront _ file_name A3 B3 C3 Hf) as [_ E3].
  split; [apply dirname_join_layout; assumption|].
  split; [rewrite E1, <- append_assoc; apply basename_app_slash, Hf|].
  split; [apply dirname_join_layout; assumption|].
  rewrite E3, <- append_assoc. apply basename_app_slash, Hf.
Qed.

Lemma layout_path_round_trip_witness :
  basename (join "/tmp/out/" [DRAWABLE_FOLDER_PATH xhdpi; "my_icon.png"]) = "my_icon.png".
Proof.
  exact (proj1 (proj2 (layout_path_round_trip "/tmp/out/" "my_icon.png" xhdpi eq_refl))).
Defined.

(** ** What one pass of the loop does to the file system *)

Lemma resolution_type_eq_dec (r1 r2 : resolution_type) : {r1 = r2} + {r1 <> r2}.
Proof. decide equality. Qed.

(** Whatever the sizes, a pass either raises and changes nothing or saves
    one file at the path of its bucket. *)
Lemma resize_one_cases (output_folder file_path : string) (im : image)
    (width height baseline : Z) (r : resolution_type) (s : fs) :
  (exists e,
     resize_one output_folder (basename file_path) im width height baseline r s
     = (Raise e, s)) \/
  (exists pic,
     resize_one output_folder (basename file_path) im width height baseline r s
     = (Ok tt, mkFs (dirs s)
                    (<[ drawable_file output_folder file_path r := pic ]> (files s))
                    (refused s))).
Proof.
  unfold resize_one, iobind, lift.
  destruct (target_size_for baseline r) as [t|e]; [|left; exists e; reflexivity].
  destruct (get_width_height width height t) as [sz|e]; [|left; exists e; reflexivity].
  unfold Image_save. fold (drawable_file output_folder file_path r).
  destruct (decide (dirname (drawable_file output_folder file_path r) ∈ dirs s)).
  - right. eexists. reflexivity.
  - left. exists IOError. reflexivity.
Qed.

(** With sides below [2^31] both computations succeed, and the pass saves
    or raises [IOError] according to whether the directory is there. *)
Lemma resize_one_state (output_folder file_path : string) (im : image)
    (width height : Z) (r : resolution_type) (s : fs) :
  0 < width < 2 ^ 31 -> 0 < height < 2 ^ 31 ->
  exists a b,
    bucket_size width height r = Ok (a, b) /\
    resize_one output_folder (basename file_path) im width height
      (if width >? height then width else height) r s
    = if decide (drawable_dir output_folder r ∈ dirs s)
      then (Ok tt, mkFs (dirs s)
                        (<[ drawable_file output_folder file_path r := Picture a b ]>
                           (files s))
                        (refused s))
      else (Raise IOError, s).
Proof.
  intros Hw Hh. unfold resize_one, bucket_size, iobind, lift.
  set (baseline := if width >? height then width else height).
  assert (Hb : 0 < baseline < 2 ^ 31) by (unfold baseline; destruct (width >? height); lia).
  rewrite target_size_for_exact by lia. cbn [bind].
  pose proof (Qfloor_scale_bounds baseline r ltac:(lia)) as Hq.
  set (t := Qfloor (inject_Z baseline * relative_scale r)) in *.
  destruct (get_width_height_defined width height t) as (v & Hv & E); try lia.
  rewrite E.
  set (sz := if width >? height then (t, v) else (v, t)).
  exists (fst sz), (snd sz). split; [destruct sz; reflexivity|].
  unfold Image_save. fold (drawable_file output_folder file_path r).
  destruct (drawable_layout r) as (L1 & L2 & L3).
  assert (Hd : dirname (drawable_file output_folder file_path r)
               = drawable_dir output_folder r).
  { apply dirname_join_layout; try assumption. apply has_slash_normalize_basename. }
  rewrite Hd. reflexivity.
Qed.

Lemma drawable_file_inj (output_folder file_path : string) (r1 r2 : resolution_type) :
  drawable_file output_folder file_path r1 = drawable_file output_folder file_path r2 ->
  r1 = r2.
Proof.
  apply (layout_paths_differ output_folder
           (normalize_file_name (basename file_path)) r1 r2).
  apply has_slash_normalize_basename.
Qed.

Lemma drawable_file_not_playstore (output_folder file_path : string) (r : resolution_type) :
  drawable_file output_folder file_path r <> playstore_file output_folder file_path.
Proof.
  apply (layout_paths_differ output_folder
           (normalize_file_name (basename file_path)) r r).
  apply has_slash_normalize_basename.
Qed.

(** The loop, for sides below [2^31] and with every directory in place:
    it completes, every bucket among the keys has its file, files already
    right stay right and all other paths are left alone. *)
Lemma resize_loop_files (keys : list resolution_type) (output_folder file_path : string)
    (im : image) (width height : Z) (s : fs) :
  0 < width < 2 ^ 31 -> 0 < height < 2 ^ 31 ->
  (forall r, drawable_dir output_folder r ∈ dirs s) ->
  exists s',
    for_each keys
      (resize_one output_folder (basename file_path) im width height
         (if width >? height then width else height)) s = (Ok tt, s') /\
    dirs s' = dirs s /\ refused s' = refused s /\
    (forall r a b,
       bucket_size width height r = Ok (a, b) ->
       In r keys \/ files s !! drawable_file output_folder file_path r = Some (Picture a b) ->
       files s' !! drawable_file output_folder file_path r = Some (Picture a b)) /\
    (forall p, (forall r, In r keys -> p <> drawable_file output_folder file_path r) ->
               files s' !! p = files s !! p).
Proof.
  intros Hw Hh. revert s. induction keys as [|r0 keys IH]; intros s Hdirs.
  - exists s. split; [reflexivity|]. split; [reflexivity|]. split; [reflexivity|].
    split; [|reflexivity]. intros r a b _ [[]|H]. exact H.
  - destruct (resize_one_state output_folder file_path im width height r0 s Hw Hh)
      as (a0 & b0 & Hsz0 & E0).
    destruct (decide (drawable_dir output_folder r0 ∈ dirs s)) as [_|Hn];
      [|exfalso; apply Hn, Hdirs].
    set (s1 := mkFs (dirs s)
                 (<[ drawable_file output_folder file_path r0 := Picture a0 b0 ]> (files s))
                 (refused s)) in *.
    destruct (IH s1) as (s2 & E2 & D2 & R2 & F2 & O2); [exact Hdirs|].
    exists s2. cbn [for_each]. unfold iobind at 1. rewrite E0, E2.
    split; [reflexivity|]. split; [exact D2|]. split; [exact R2|]. split.
    + intros r a b Hsz Hr. apply (F2 r a b Hsz).
      destruct (resolution_type_eq_dec r r0) as [->|Hne].
      * right. cbn [s1 files]. rewrite lookup_insert_eq. congruence.
      * destruct Hr as [[Heq|Hin]|Hfile]; [congruence|left; exact Hin|].
        right. cbn [s1 files]. rewrite lookup_insert_ne; [exact Hfile|].
        intros Heq. apply Hne. symmetry. eapply drawable_file_inj, Heq.
    + intros p Hp. rewrite O2 by (intros r Hr; apply Hp; right; exact Hr).
      cbn [s1 files]. apply lookup_insert_ne. intros Heq.
      apply (Hp r0); [left; reflexivity|]. symmetry. exact Heq.
Qed.

(** The storefront block of [resize], from a state in which the loop has
    left the directory question open. *)
Lemma playstore_block_state (output_folder file_path : string) (im : image)
    (width height : Z) (s : fs) :
  0 < width < 2 ^ 31 -> 0 < height < 2 ^ 31 ->
  playstore_dir output_folder ∉ refused s ->
  exists s' a b,
    (create_playstore_directory output_folder ;;
     let* new_size := lift (get_width_height width height PLAYSTORE_SIZE) in
     Image_save (Image_resize im new_size) (playstore_file output_folder file_path))%io s
    = (Ok tt, s') /\
    get_width_height width height PLAYSTORE_SIZE = Ok (a, b) /\
    files s' = <[ playstore_file output_folder file_path := Picture a b ]> (files s).
Proof.
  intros Hw Hh Href.
  destruct (try_makedirs_spec (playstore_dir output_folder) s)
    as (s3 & E3 & F3 & R3 & D3 & P3 & _).
  assert (Hdir : playstore_dir output_folder ∈ dirs s3).
  { destruct P3 as [H|H]; [exact H|contradiction]. }
  destruct (get_width_height_defined width height PLAYSTORE_SIZE)
    as (v & Hv & Eg); try (unfold PLAYSTORE_SIZE; lia).
  set (sz := if width >? height then (PLAYSTORE_SIZE, v) else (v, PLAYSTORE_SIZE)) in *.
  destruct playstore_layout as (L1 & L2 & L3).
  eexists _, (fst sz), (snd sz). split; [|split].
  - unfold iobind, lift, create_playstore_directory.
    fold (playstore_dir output_folder). rewrite E3, Eg.
    rewrite Image_save_ok; [reflexivity|].
    unfold playstore_file. rewrite dirname_join_layout; try assumption.
    apply has_slash_normalize_basename.
  - rewrite Eg. destruct sz; reflexivity.
  - cbn [files Image_resize size]. rewrite F3. reflexivity.
Qed.



(** ** The target sizes of a run *)

Lemma for_each_ext {A} (xs : list A) (f g : A -> io unit) :
  (forall x s, f x s = g x s) -> forall s, for_each xs f s = for_each xs g s.
Proof.
  intros Hfg. induction xs as [|x xs IH]; intros s; [reflexivity|].
  cbn [for_each]. unfold iobind. rewrite Hfg.
  destruct (g x s) as [[[]|e] s1]; [apply IH|reflexivity].
Qed.

(** One pass of the loop at the baseline [resize] uses, with the target
    written out. *)
Lemma resize_one_target (output_folder file_path : string) (im : image)
    (width height : Z) (r : resolution_type) (s : fs) :
  width < 2 ^ 31 -> height < 2 ^ 31 ->
  resize_one output_folder (basename file_path) im width height
    (if width >? height then width else height) r s
  = (let* new_size :=
       lift (get_width_height width height
               (if Z.max width height >? 0
                then Qfloor (inject_Z (Z.max width height) * relative_scale r)
                else RESOLUTION_SIZES r)) in
     Image_save (Image_resize im new_size)
       (drawable_file output_folder file_path r))%io s.
Proof.
  intros Hw Hh.
  assert (Hb : (if width >? height then width else height) = Z.max width height).
  { destruct (width >? height) eqn:E.
    - apply Z.gtb_lt in E. lia.
    - rewrite Z.gtb_ltb in E. apply Z.ltb_ge in E. lia. }
  rewrite Hb. unfold resize_one, iobind at 1, lift at 1.
  destruct (Z.max width height >? 0) eqn:E.
  - apply Z.gtb_lt in E. rewrite target_size_for_exact by lia. reflexivity.
  - rewrite Z.gtb_ltb in E. apply Z.ltb_ge in E.
    rewrite target_size_for_fallback by lia. reflexivity.
Qed.

(** The example of the specification: [xxxhdpi] of a 100 by 200 source. *)
Lemma xxxhdpi_of_100_by_200 (new_width new_height : Z) :
  get_width_height 100 200 (Qfloor (inject_Z (Z.max 100 200) * relative_scale xxxhdpi))
  = Ok (new_width, new_height) ->
  new_width = 400 /\ new_height = 800.
Proof.
  assert (Hc : get_width_height 100 200
                 (Qfloor (inject_Z (Z.max 100 200) * relative_scale xxxhdpi))
               = Ok (400, 800)) by (vm_compute; reflexivity).
  rewrite Hc. intros H. injection H as <- <-. split; reflexivity.
Qed.

(** C3.  On an image whose sides are below [2^31], [resize] is the run in
    which the pass for a bucket calls [get_width_height] with the floor of
    the baseline times the bucket's factor, the baseline being the longer
    side; the fixed size of the bucket takes its place only for a baseline
    that is not positive.  With positive sides and no directory refused
    the run completes, and the file of every bucket has the size that call
    returns, its longer side being that floor: 400 by 800 in [xxxhdpi] for
    a 100 by 200 source. *)
Theorem resize_target_sizes
    (keys : list resolution_type) (output_folder file_path : string)
    (desired_size_mdpi : option Z) (with_playstore : bool) (s : fs)
    (width height : Z) :
  files s !! file_path = Some (Picture width height) ->
  width < 2 ^ 31 -> height < 2 ^ 31 ->
  let baseline := Z.max width height in
  let scaled r := Qfloor (inject_Z baseline * relative_scale r) in
  let target r := if baseline >? 0 then scaled r else RESOLUTION_SIZES r in
  resize keys output_folder file_path desired_size_mdpi with_playstore s
  = (create_directories output_folder ;;
     let* image := Image_open file_path in
     for_each keys (fun r =>
       let* new_size := lift (get_width_height width height (target r)) in
       Image_save (Image_resize image new_size)
         (drawable_file output_folder file_path r)) ;;
     if with_playstore then
       (create_playstore_directory output_folder ;;
        let* new_size := lift (get_width_height width height PLAYSTORE_SIZE) in
        Image_save (Image_resize image new_size)
          (playstore_file output_folder file_path))
     else ret tt)%io s /\
  (0 < width -> 0 < height ->
   (forall r, drawable_dir output_folder r ∉ refused s) ->
   playstore_dir output_folder ∉ refused s ->
   forall r, In r keys ->
   exists s' new_width new_height,
     resize keys output_folder file_path desired_size_mdpi with_playstore s
     = (Ok tt, s') /\
     get_width_height width height (scaled r) = Ok (new_width, new_height) /\
     Z.max new_width new_height = scaled r /\
     files s' !! drawable_file output_folder file_path r
     = Some (Picture new_width new_height) /\
     (width = 100 -> height = 200 -> r = xxxhdpi ->
      scaled r = 800 /\ new_width = 400 /\ new_height = 800)).
Proof.
  intros Hfile Hw Hh baseline scaled target.
  destruct (create_directories_spec output_folder s) as (s1 & E1 & F1 & R1 & D1 & P1 & _).
  assert (Hopen : Image_open file_path s1 = (Ok (mkImage (width, height)), s1)).
  { unfold Image_open. rewrite F1, Hfile. reflexivity. }
  split.
  - unfold resize, iobind at 1 2 3. unfold iobind at 2 3 4.
    rewrite E1, Hopen. cbn [size fst snd].
    rewrite (for_each_ext keys _ _
               (fun r s0 => resize_one_target output_folder file_path
                              (mkImage (width, height)) width height r s0 Hw Hh)).
    reflexivity.
  - intros Hw0 Hh0 Href Hrefp r Hin.
    assert (Hw' : 0 < width < 2 ^ 31) by lia.
    assert (Hh' : 0 < height < 2 ^ 31) by lia.
    assert (Hdirs : forall r', drawable_dir output_folder r' ∈ dirs s1).
    { intros r'. destruct (P1 r') as [H|H]; [exact H|]. exfalso. exact (Href r' H). }
    destruct (resize_loop_files keys output_folder file_path (mkImage (width, height))
                width height s1 Hw' Hh' Hdirs) as (s2 & E2 & D2 & R2 & F2 & O2).
    assert (Hb : (if width >? height then width else height) = baseline).
    { unfold baseline. destruct (width >? height) eqn:E.
      - apply Z.gtb_lt in E. lia.
      - rewrite Z.gtb_ltb in E. apply Z.ltb_ge in E. lia. }
    assert (Hbb : 0 < baseline < 2 ^ 31) by (unfold baseline; lia).
    pose proof (Qfloor_scale_bounds baseline r ltac:(lia)) as Hq.
    fold (scaled r) in Hq.
    destruct (get_width_height_defined width height (scaled r))
      as (v & Hv & Eg); try lia.
    set (sz := if width >? height then (scaled r, v) else (v, scaled r)) in *.
    assert (Hsz : bucket_size width height r = Ok (fst sz, snd sz)).
    { unfold bucket_size. rewrite Hb, target_size_for_exact by lia. cbn [bind].
      fold (scaled r). rewrite Eg. destruct sz; reflexivity. }
    assert (Hr : files s2 !! drawable_file output_folder file_path r
                 = Some (Picture (fst sz) (snd sz)))
      by (apply F2; [exact Hsz|left; exact Hin]).
    assert (Hmax : Z.max (fst sz) (snd sz) = scaled r)
      by (unfold sz; destruct (width >? height); cbn [fst snd]; lia).
    assert (Hg : get_width_height width height (scaled r) = Ok (fst sz, snd sz))
      by (rewrite Eg; destruct sz; reflexivity).
    assert (Hex : width = 100 -> height = 200 -> r = xxxhdpi ->
                  scaled r = 800 /\ fst sz = 400 /\ snd sz = 800).
    { intros Ew Eh Er. pose proof Hg as Hg'. unfold scaled, baseline in Hg' |- *.
      rewrite Ew, Eh, Er in Hg' |- *.
      split; [reflexivity|]. exact (xxxhdpi_of_100_by_200 _ _ Hg'). }
    destruct with_playstore.
    + destruct (playstore_block_state output_folder file_path (mkImage (width, height))
                  width height s2 Hw' Hh') as (s3 & a' & b' & E3 & _ & F3).
      { rewrite R2, R1. exact Hrefp. }
      exists s3, (fst sz), (snd sz).
      split; [|split; [exact Hg|split; [exact Hmax|split; [|exact Hex]]]].
      * unfold resize, iobind at 1 2 3. rewrite E1, Hopen. cbn [size fst snd]. rewrite E2.
        exact E3.
      * rewrite F3, lookup_insert_ne; [exact Hr|].
        intros Heq. symmetry in Heq. exact (drawable_file_not_playstore _ _ _ Heq).
    + exists s2, (fst sz), (snd sz).
      split; [|split; [exact Hg|split; [exact Hmax|split; [exact Hr|exact Hex]]]].
      unfold resize, iobind. rewrite E1, Hopen. cbn [size fst snd]. rewrite E2. reflexivity.
Qed.

Lemma resize_target_sizes_witness :
  exists s',
    resize RESOLUTION_TYPES "out" "icon.png" None false
      (mkFs ∅ {[ "icon.png" := Picture 100 200 ]} ∅) = (Ok tt, s') /\
    files s' !! "out/res/drawable-xxxhdpi/icon.png" = Some (Picture 400 800).
Proof.
  destruct (resize_target_sizes RESOLUTION_TYPES "out" "icon.png" None false
              (mkFs ∅ {[ "icon.png" := Picture 100 200 ]} ∅) 100 200)
    as (_ & H); [reflexivity|lia|lia|].
  destruct (H ltac:(lia) ltac:(lia)
              (fun r => not_elem_of_empty (drawable_dir "out" r))
              (not_elem_of_empty (playstore_dir "out")) xxxhdpi)
    as (s' & nw & nh & E & _ & _ & F & Hex); [cbn; tauto|].
  destruct Hex as (_ & -> & ->); [reflexivity|reflexivity|reflexivity|].
  exists s'. split; [exact E|exact F].
Defined.

(** ** Directories that come into being *)

Lemma ancestors_spec (seen p a : string) :
  In a (ancestors seen p) ->
  exists q q', p = q ++ String "/" q' /\ a = seen ++ q.
Proof.
  revert seen. induction p as [|c p IH]; intros seen; [intros []|].
  cbn [ancestors]. intros H. apply in_app_or in H as [H|H].
  - destruct (Ascii.eqb_spec c "/") as [->|]; [|destruct H].
    destruct (negb (String.eqb seen "")); [|destruct H].
    destruct H as [<-|[]]. exists "", p. split; [reflexivity|].
    clear. induction seen as [|x seen IHs]; [reflexivity|].
    change (String x seen ++ "") with (String x (seen ++ "")). rewrite <- IHs. reflexivity.
  - apply IH in H as (q & q' & -> & ->). exists (String c q), q'.
    split; [reflexivity|]. rewrite append_assoc. reflexivity.
Qed.

Lemma try_makedirs_new_dirs (p : string) (s : fs) (x : string) :
  x ∈ dirs (snd (try_except_OSError (makedirs p) s)) ->
  x ∈ dirs s \/ ((p ∉ refused s) /\ (x = p \/ In x (ancestors "" p))).
Proof.
  unfold try_except_OSError, makedirs.
  destruct (decide (p ∈ dirs s)); [cbn; tauto|].
  destruct (decide (p ∈ refused s)); [cbn; tauto|].
  cbn [snd dirs]. intros H.
  apply elem_of_union in H as [H|H].
  - apply elem_of_union in H as [H|H]; [left; exact H|].
    right. split; [assumption|]. right.
    apply elem_of_list_to_set in H. apply list_elem_of_In. exact H.
  - right. split; [assumption|]. left. apply elem_of_singleton in H. exact H.
Qed.

Lemma for_each_makedirs_new_dirs (paths : list string) (s : fs) (x : string) :
  x ∈ dirs (snd (for_each paths (fun p => try_except_OSError (makedirs p)) s)) ->
  x ∈ dirs s \/
  exists p, In p paths /\ (p ∉ refused s) /\ (x = p \/ In x (ancestors "" p)).
Proof.
  revert s. induction paths as [|p paths IH]; intros s; [cbn; tauto|].
  destruct (try_makedirs_spec p s) as (s1 & E1 & F1 & R1 & D1 & P1 & I1).
  cbn [for_each]. unfold iobind. rewrite E1. intros H.
  apply IH in H as [H|(q & Hq & Hr & Hx)].
  - replace s1 with (snd (try_except_OSError (makedirs p) s)) in H by (rewrite E1; reflexivity).
    apply try_makedirs_new_dirs in H as [H|[Hr Hx]]; [left; exact H|].
    right. exists p. split; [left; reflexivity|]. split; assumption.
  - right. exists q. split; [right; exact Hq|]. split; [rewrite <- R1; exact Hr|exact Hx].
Qed.

(** No directory of the layout is an ancestor of a bucket directory. *)
Lemma layout_sub_not_above (sub : string) (r' : resolution_type) (q' : string) :
  sub = PLAYSTORE_FOLDER_PATH \/ (exists r, sub = DRAWABLE_FOLDER_PATH r) ->
  DRAWABLE_FOLDER_PATH r' <> sub ++ String "/" q'.
Proof.
  intros [->|[r ->]].
  - destruct r'; cbn; discriminate.
  - destruct r, r'; cbn; discriminate.
Qed.

Lemma layout_dir_shape (output_folder : string) :
  exists front,
    playstore_dir output_folder = front ++ PLAYSTORE_FOLDER_PATH /\
    forall r, drawable_dir output_folder r = front ++ DRAWABLE_FOLDER_PATH r.
Proof.
  destruct (join_layout_shape output_folder) as [front Hfront].
  exists front. split.
  - destruct playstore_layout as (A & B & C).
    exact (proj1 (Hfront _ "" A B C eq_refl)).
  - intros r. destruct (drawable_layout r) as (A & B & C).
    exact (proj1 (Hfront _ "" A B C eq_refl)).
Qed.

Lemma drawable_dir_inj (output_folder : string) (r1 r2 : resolution_type) :
  drawable_dir output_folder r1 = drawable_dir output_folder r2 -> r1 = r2.
Proof.
  destruct (layout_dir_shape output_folder) as (front & _ & Hd).
  rewrite !Hd. intros H. apply append_cancel_l in H.
  destruct r1, r2; first [reflexivity | discriminate H].
Qed.


Lemma layout_dir_not_ancestor (output_folder : string) (r' : resolution_type) (x : string) :
  x = playstore_dir output_folder \/ (exists r, x = drawable_dir output_folder r) ->
  ~ In x (ancestors "" (drawable_dir output_folder r')).
Proof.
  intros Hx Hin. apply ancestors_spec in Hin as (q & q' & Hp & Hq).
  change ("" ++ q) with q in Hq. subst q.
  destruct (layout_dir_shape output_folder) as (front & Hps & Hd).
  rewrite Hd in Hp.
  assert (Hsub : exists sub, x = front ++ sub /\
             (sub = PLAYSTORE_FOLDER_PATH \/ exists r, sub = DRAWABLE_FOLDER_PATH r)).
  { destruct Hx as [->|[r ->]].
    - exists PLAYSTORE_FOLDER_PATH. split; [exact Hps|left; reflexivity].
    - exists (DRAWABLE_FOLDER_PATH r). split; [apply Hd|right; exists r; reflexivity]. }
  destruct Hsub as (sub & -> & Hsub).
  rewrite append_assoc in Hp. apply append_cancel_l in Hp.
  exact (layout_sub_not_above sub r' q' Hsub Hp).
Qed.

(** After [create_directories] a directory of the layout that was not
    there is there only if it is a bucket directory the system let
    through. *)
Lemma create_directories_new_layout_dir (output_folder : string) (s : fs) (x : string) :
  x = playstore_dir output_folder \/ (exists r, x = drawable_dir output_folder r) ->
  x ∈ dirs (snd (create_directories output_folder s)) ->
  x ∈ dirs s \/ exists r, x = drawable_dir output_folder r /\ x ∉ refused s.
Proof.
  intros Hx H.
  assert (E : create_directories output_folder s
              = for_each (List.map (drawable_dir output_folder) RESOLUTION_TYPES)
                  (fun p => try_except_OSError (makedirs p)) s)
    by (rewrite for_each_map; reflexivity).
  rewrite E in H. apply for_each_makedirs_new_dirs in H as [H|(p & Hp & Hr & Hxp)];
    [left; exact H|right].
  apply in_map_iff in Hp as (r' & <- & _).
  destruct Hxp as [->|Hanc].
  - exists r'. split; [reflexivity|exact Hr].
  - exfalso. exact (layout_dir_not_ancestor output_folder r' x Hx Hanc).
Qed.

(** ** What [resize] leaves alone *)

(** The loop on any sizes: directories stay, and so do all files except
    those of the keys. *)
Lemma resize_loop_frame (keys : list resolution_type) (output_folder file_path : string)
    (im : image) (width height baseline : Z) (s : fs) (res : result unit) (s' : fs) :
  for_each keys (resize_one output_folder (basename file_path) im width height baseline) s
  = (res, s') ->
  dirs s' = dirs s /\ refused s' = refused s /\
  forall p, (forall r, In r keys -> p <> drawable_file output_folder file_path r) ->
            files s' !! p = files s !! p.
Proof.
  revert s. induction keys as [|r0 keys IH]; intros s.
  - cbn. intros [= _ <-]. repeat split; reflexivity.
  - cbn [for_each]. unfold iobind.
    destruct (resize_one_cases output_folder file_path im width height baseline r0 s)
      as [[e E]|[pic E]]; rewrite E.
    + intros [= _ <-]. repeat split; reflexivity.
    + intros H. apply IH in H as (D & R & F).
      split; [exact D|]. split; [exact R|].
      intros p Hp. rewrite F by (intros r Hr; apply Hp; right; exact Hr).
      cbn [files]. apply lookup_insert_ne. intros Heq.
      apply (Hp r0); [left; reflexivity|]. symmetry. exact Heq.
Qed.

(** The storefront block on any sizes. *)
Lemma playstore_block_frame (output_folder file_path : string) (im : image)
    (width height : Z) (s : fs) (res : result unit) (s' : fs) :
  (create_playstore_directory output_folder ;;
   let* new_size := lift (get_width_height width height PLAYSTORE_SIZE) in
   Image_save (Image_resize im new_size) (playstore_file output_folder file_path))%io s
  = (res, s') ->
  dirs s ⊆ dirs s' /\ refused s' = refused s /\
  forall p, p <> playstore_file output_folder file_path -> files s' !! p = files s !! p.
Proof.
  destruct (try_makedirs_spec (playstore_dir output_folder) s)
    as (s3 & E3 & F3 & R3 & D3 & _).
  unfold iobind, lift, create_playstore_directory. fold (playstore_dir output_folder).
  rewrite E3. destruct (get_width_height width height PLAYSTORE_SIZE) as [sz|e].
  - unfold Image_save.
    destruct (decide (dirname (playstore_file output_folder file_path) ∈ dirs s3)).
    + intros [= _ <-]. cbn [dirs refused files]. split; [exact D3|]. split; [exact R3|].
      intros p Hp. rewrite lookup_insert_ne by congruence. rewrite F3. reflexivity.
    + intros [= _ <-]. split; [exact D3|]. split; [exact R3|].
      intros p _. rewrite F3. reflexivity.
  - intros [= _ <-]. split; [exact D3|]. split; [exact R3|].
    intros p _. rewrite F3. reflexivity.
Qed.

(** X12.  Whatever the input and whether it completes or raises, [resize]
    changes no file other than the bucket files of its keys and, with the
    flag, the storefront file; it removes no directory and leaves the
    refusals of the system as they are. *)
Theorem resize_touches_only_its_files
    (keys : list resolution_type) (output_folder file_path : string)
    (desired_size_mdpi : option Z) (with_playstore : bool) (s : fs) (p : string) :
  (forall r, In r keys -> p <> drawable_file output_folder file_path r) ->
  (with_playstore = true -> p <> playstore_file output_folder file_path) ->
  let s' := snd (resize keys output_folder file_path desired_size_mdpi with_playstore s) in
  files s' !! p = files s !! p /\ dirs s ⊆ dirs s' /\ refused s' = refused s.
Proof.
  intros Hp Hps.
  destruct (create_directories_spec output_folder s) as (s1 & E1 & F1 & R1 & D1 & _).
  cbv zeta.
  destruct (resize keys output_folder file_path desired_size_mdpi with_playstore s)
    as [res' s'] eqn:E.
  cbn [snd]. unfold resize, iobind at 1 2 in E. rewrite E1 in E. unfold Image_open in E.
  assert (H1 : files s1 !! p = files s !! p /\ dirs s ⊆ dirs s1 /\ refused s1 = refused s)
    by (rewrite F1; auto).
  destruct (files s1 !! file_path) as [[w h|]|];
    [|injection E as _ <-; exact H1|injection E as _ <-; exact H1].
  cbn [size fst snd] in E. unfold iobind at 1 in E.
  destruct (for_each keys _ s1) as [res s2] eqn:E2.
  apply resize_loop_frame in E2 as (D2 & R2 & F2).
  assert (Hloop : files s2 !! p = files s !! p /\ dirs s ⊆ dirs s2 /\ refused s2 = refused s).
  { repeat split; [rewrite F2, F1 by assumption; reflexivity
                  |rewrite D2; exact D1|rewrite R2; exact R1]. }
  destruct res as [[]|e]; [|injection E as _ <-; exact Hloop].
  destruct with_playstore; [|injection E as _ <-; exact Hloop].
  apply playstore_block_frame in E as (D3 & R3 & F3).
  destruct Hloop as (Hf & Hd & Hr). repeat split.
  - rewrite F3 by (apply Hps; reflexivity). exact Hf.
  - intros x Hx. apply D3, Hd, Hx.
  - rewrite R3. exact Hr.
Qed.

Lemma resize_touches_only_its_files_witness :
  files (snd (resize RESOLUTION_TYPES "out" "in/my-icon@2x.png" None false
                (mkFs ∅ {[ "in/my-icon@2x.png" := Picture 100 200 ]} ∅)))
    !! "in/my-icon@2x.png"
  = Some (Picture 100 200).
Proof.
  refine (proj1 (resize_touches_only_its_files RESOLUTION_TYPES "out" "in/my-icon@2x.png"
                   None false (mkFs ∅ {[ "in/my-icon@2x.png" := Picture 100 200 ]} ∅)
                   "in/my-icon@2x.png" _ _)).
  - intros r Hr. destruct r; vm_compute; discriminate.
  - discriminate.
Defined.

(** ** A refused directory *)

Lemma resize_loop_missing_dir (keys : list resolution_type)
    (output_folder file_path : string) (im : image) (width height : Z)
    (r : resolution_type) (s : fs) :
  0 < width < 2 ^ 31 -> 0 < height < 2 ^ 31 ->
  In r keys -> drawable_dir output_folder r ∉ dirs s ->
  exists s',
    for_each keys
      (resize_one output_folder (basename file_path) im width height
         (if width >? height then width else height)) s = (Raise IOError, s').
Proof.
  intros Hw Hh. revert s. induction keys as [|r0 keys IH]; intros s Hin Hmiss; [destruct Hin|].
  destruct (resize_one_state output_folder file_path im width height r0 s Hw Hh)
    as (a0 & b0 & _ & E0).
  cbn [for_each]. unfold iobind at 1. rewrite E0.
  destruct (decide (drawable_dir output_folder r0 ∈ dirs s)) as [Hthere|_].
  - destruct Hin as [->|Hin]; [contradiction|].
    apply IH; [exact Hin|exact Hmiss].
  - exists s. reflexivity.
Qed.

(** X13.  [create_directories] passes over a refusal, but the run does not
    survive it: if the directory of some key is refused and not there,
    [resize] on a decodable image raises [IOError] from [save]. *)
Theorem resize_fails_on_refused_directory
    (keys : list resolution_type) (output_folder file_path : string)
    (desired_size_mdpi : option Z) (with_playstore : bool) (s : fs)
    (width height : Z) (r : resolution_type) :
  files s !! file_path = Some (Picture width height) ->
  0 < width < 2 ^ 31 -> 0 < height < 2 ^ 31 ->
  In r keys ->
  drawable_dir output_folder r ∈ refused s ->
  drawable_dir output_folder r ∉ dirs s ->
  exists s',
    resize keys output_folder file_path desired_size_mdpi with_playstore s
    = (Raise IOError, s').
Proof.
  intros Hfile Hw Hh Hin Href Hmiss.
  destruct (create_directories_spec output_folder s) as (s1 & E1 & F1 & R1 & D1 & _).
  assert (Hmiss1 : drawable_dir output_folder r ∉ dirs s1).
  { intros H.
    replace s1 with (snd (create_directories output_folder s)) in H
      by (rewrite E1; reflexivity).
    apply create_directories_new_layout_dir in H as [H|(r' & _ & Hok)];
      [contradiction|contradiction|].
    right. exists r. reflexivity. }
  destruct (resize_loop_missing_dir keys output_folder file_path (mkImage (width, height))
              width height r s1 Hw Hh Hin Hmiss1) as (s2 & E2).
  exists s2. unfold resize, iobind. rewrite E1. unfold Image_open. rewrite F1, Hfile.
  cbn [size fst snd]. rewrite E2. reflexivity.
Qed.

Lemma resize_fails_on_refused_directory_witness :
  exists s',
    resize RESOLUTION_TYPES "out" "icon.png" None false
      (mkFs ∅ {[ "icon.png" := Picture 100 200 ]} {[ "out/res/drawable-hdpi" ]})
    = (Raise IOError, s').
Proof.
  apply (resize_fails_on_refused_directory RESOLUTION_TYPES "out" "icon.png" None false
           (mkFs ∅ {[ "icon.png" := Picture 100 200 ]} {[ "out/res/drawable-hdpi" ]})
           100 200 hdpi).
  - reflexivity.
  - lia.
  - lia.
  - cbn. tauto.
  - vm_compute. reflexivity.
  - apply not_elem_of_empty.
Defined.


